(** * local-voice-ai: the agent's metrics handlers and the documentation scripts

    A shallow embedding of
    - [agent/myagent.py]: the five listeners that [SimpleAgent.__init__]
      registers and the five coroutines they spawn;
    - [scripts/validate-docs.py]: the validator's result and exit status, and
      the reference check;
    - [scripts/fix-docs-references.py]: the rewriting of the documentation
      files;
    and a model of the voice session of the specification (turns, barge-in),
    for which the repository holds no code of its own. *)

From Stdlib Require Import Ascii.
From stdpp Require Import gmap strings list pretty.
From Equations Require Import Equations.

Local Open Scope string_scope.
Local Open Scope list_scope.

(** A closed decidable proposition, settled by evaluating its decision. *)
Ltac decide_by_compute :=
  match goal with
  | |- ?P => apply (bool_decide_unpack P); vm_compute; exact I
  end.

(** ** Python values *)

(** The values an attribute of a metrics object can hold.  Floats and
    datetimes are kept abstract: what the handlers do with them (formatting,
    truth value, [isoformat()]) is taken as a parameter where it is used. *)
Inductive PyVal (pyfloat datetime : Type) : Type :=
| VNone
| VBool (b : bool)
| VInt (n : Z)
| VFloat (f : pyfloat)
| VStr (s : string)
| VDatetime (d : datetime)
| VObj (repr : string).
Arguments VNone {pyfloat datetime}.
Arguments VBool {pyfloat datetime} b.
Arguments VInt {pyfloat datetime} n.
Arguments VFloat {pyfloat datetime} f.
Arguments VStr {pyfloat datetime} s.
Arguments VDatetime {pyfloat datetime} d.
Arguments VObj {pyfloat datetime} repr.

(** What a handler can raise: [AttributeError], and the model's own answer
    to an address that holds no object (a Python reference cannot dangle). *)
Inductive PyExc : Type :=
| AttributeError (obj attr : string)
| Dangling (addr : nat).

Module Agent.

Section Handlers.

Context {pyfloat datetime : Type}.
(** [str(f)] and [bool(f)] of a float, [str(d)] and [d.isoformat()] of a
    datetime. *)
Context (float_str : pyfloat -> string) (float_bool : pyfloat -> bool).
Context (datetime_str : datetime -> string) (isoformat : datetime -> string).

Abbreviation Val := (PyVal pyfloat datetime).

(** [str(v)], which is also what an f-string field [{v}] renders. *)
Definition py_str (v : Val) : string :=
  match v with
  | VNone => "None"
  | VBool true => "True"
  | VBool false => "False"
  | VInt n => pretty n
  | VFloat f => float_str f
  | VStr s => s
  | VDatetime d => datetime_str d
  | VObj repr => repr
  end.

(** [bool(v)]: the truth value an [if] tests. *)
Definition truthy (v : Val) : bool :=
  match v with
  | VNone => false
  | VBool b => b
  | VInt n => negb (n =? 0)%Z
  | VFloat f => float_bool f
  | VStr s => negb (String.eqb s "")
  | VDatetime _ => true
  | VObj _ => true
  end.

(** [isinstance(v, (int, float))]; [bool] is a subclass of [int]. *)
Definition is_int_or_float (v : Val) : bool :=
  match v with
  | VBool _ | VInt _ | VFloat _ => true
  | _ => false
  end.

(** The name of a value's class, for the message of an [AttributeError]. *)
Definition class_name (v : Val) : string :=
  match v with
  | VNone => "NoneType"
  | VBool _ => "bool"
  | VInt _ => "int"
  | VFloat _ => "float"
  | VStr _ => "str"
  | VDatetime _ => "datetime.datetime"
  | VObj _ => "object"
  end.

(** ** The store and the handlers' monad *)

(** A metrics object: its attributes by name. *)
Abbreviation Obj := (gmap string Val).

(** The world a handler runs in: the objects by address, and the lines
    [logger.info] has written. *)
Record World : Type := mkWorld {
  heap : gmap nat Obj;
  log : list string
}.

(** A computation returns a value or raises, and leaves a world either way. *)
Definition M (A : Type) : Type := World -> (PyExc + A) * World.

Definition ret {A} (a : A) : M A := fun w => (inr a, w).
Definition raise {A} (e : PyExc) : M A := fun w => (inl e, w).
Definition bind {A B} (m : M A) (k : A -> M B) : M B :=
  fun w => match m w with
           | (inl e, w') => (inl e, w')
           | (inr a, w') => k a w'
           end.

Notation "'let*' x ':=' m 'in' k" := (bind m (fun x => k))
  (at level 10, x name, m at level 100, k at level 200).

(** [metrics.name]: the attribute, or [AttributeError]. *)
Definition attr (metrics : nat) (name : string) : M Val :=
  fun w => match heap w !! metrics with
           | Some o => match o !! name with
                       | Some v => (inr v, w)
                       | None => (inl (AttributeError "metrics" name), w)
                       end
           | None => (inl (Dangling metrics), w)
           end.

(** [getattr(metrics, name, None)]. *)
Definition getattr (metrics : nat) (name : string) : M Val :=
  fun w => match heap w !! metrics with
           | Some o => (inr (default VNone (o !! name)), w)
           | None => (inl (Dangling metrics), w)
           end.

(** [v.isoformat()]: only a datetime has the method. *)
Definition call_isoformat (v : Val) : M Val :=
  match v with
  | VDatetime d => ret (VStr (isoformat d))
  | _ => raise (AttributeError (class_name v) "isoformat")
  end.

(** [logger.info(line)]. *)
Definition logger_info (line : string) : M unit :=
  fun w => (inr tt, mkWorld (heap w) (log w ++ [line])).

(** [metrics.timestamp if isinstance(metrics.timestamp, (int, float))
     else metrics.timestamp.isoformat() if metrics.timestamp else None] *)
Definition timestamp_field (metrics : nat) : M Val :=
  let* t := attr metrics "timestamp" in
  if is_int_or_float t then attr metrics "timestamp"
  else
    let* t' := attr metrics "timestamp" in
    if truthy t' then
      let* t'' := attr metrics "timestamp" in
      call_isoformat t''
    else ret VNone.

(** [str(getattr(metrics, 'error', None)) if getattr(metrics, 'error', None)
     else None] *)
Definition error_field (metrics : nat) : M Val :=
  let* e := getattr metrics "error" in
  if truthy e then
    let* e' := getattr metrics "error" in
    ret (VStr (py_str e'))
  else ret VNone.

(** A record: the fields in the order the handler writes them. *)
Abbreviation Record_ := (list (string * Val)).

(** ['key': value] *)
Definition fmt_field (kv : string * Val) : string :=
  "'" +:+ kv.1 +:+ "': " +:+ py_str kv.2.

Fixpoint join (sep : string) (l : list string) : string :=
  match l with
  | [] => ""
  | [x] => x
  | x :: l' => x +:+ sep +:+ join sep l'
  end.

(** The line a handler logs: [label: {'k1': v1, 'k2': v2, ...}]. *)
Definition fmt_record (label : string) (r : Record_) : string :=
  label +:+ ": {" +:+ join ", " (fmt_field <$> r) +:+ "}".

Definition llm_fields (metrics : nat) : M Record_ :=
  let* type := attr metrics "type" in
  let* label := attr metrics "label" in
  let* request_id := attr metrics "request_id" in
  let* timestamp := timestamp_field metrics in
  let* duration := attr metrics "duration" in
  let* ttft := getattr metrics "ttft" in
  let* cancelled := getattr metrics "cancelled" in
  let* completion_tokens := getattr metrics "completion_tokens" in
  let* prompt_tokens := getattr metrics "prompt_tokens" in
  let* total_tokens := getattr metrics "total_tokens" in
  let* tokens_per_second := getattr metrics "tokens_per_second" in
  ret [("type", type); ("label", label); ("request_id", request_id);
       ("timestamp", timestamp); ("duration", duration); ("ttft", ttft);
       ("cancelled", cancelled); ("completion_tokens", completion_tokens);
       ("prompt_tokens", prompt_tokens); ("total_tokens", total_tokens);
       ("tokens_per_second", tokens_per_second)].

Definition stt_fields (metrics : nat) : M Record_ :=
  let* type := attr metrics "type" in
  let* label := attr metrics "label" in
  let* request_id := attr metrics "request_id" in
  let* timestamp := timestamp_field metrics in
  let* duration := attr metrics "duration" in
  let* speech_id := getattr metrics "speech_id" in
  let* error := error_field metrics in
  let* streamed := getattr metrics "streamed" in
  let* audio_duration := getattr metrics "audio_duration" in
  ret [("type", type); ("label", label); ("request_id", request_id);
       ("timestamp", timestamp); ("duration", duration);
       ("speech_id", speech_id); ("error", error); ("streamed", streamed);
       ("audio_duration", audio_duration)].

Definition eou_fields (metrics : nat) : M Record_ :=
  let* type := attr metrics "type" in
  let* label := attr metrics "label" in
  let* timestamp := timestamp_field metrics in
  let* end_of_utterance_delay := getattr metrics "end_of_utterance_delay" in
  let* transcription_delay := getattr metrics "transcription_delay" in
  let* speech_id := getattr metrics "speech_id" in
  let* error := error_field metrics in
  ret [("type", type); ("label", label); ("timestamp", timestamp);
       ("end_of_utterance_delay", end_of_utterance_delay);
       ("transcription_delay", transcription_delay);
       ("speech_id", speech_id); ("error", error)].

Definition tts_fields (metrics : nat) : M Record_ :=
  let* type := attr metrics "type" in
  let* label := attr metrics "label" in
  let* request_id := attr metrics "request_id" in
  let* timestamp := timestamp_field metrics in
  let* ttfb := getattr metrics "ttfb" in
  let* duration := attr metrics "duration" in
  let* audio_duration := getattr metrics "audio_duration" in
  let* cancelled := getattr metrics "cancelled" in
  let* characters_count := getattr metrics "characters_count" in
  let* streamed := getattr metrics "streamed" in
  let* speech_id := getattr metrics "speech_id" in
  let* error := error_field metrics in
  ret [("type", type); ("label", label); ("request_id", request_id);
       ("timestamp", timestamp); ("ttfb", ttfb); ("duration", duration);
       ("audio_duration", audio_duration); ("cancelled", cancelled);
       ("characters_count", characters_count); ("streamed", streamed);
       ("speech_id", speech_id); ("error", error)].

Definition on_llm_metrics_collected (metrics : nat) : M unit :=
  let* r := llm_fields metrics in logger_info (fmt_record "LLM Metrics" r).

Definition on_stt_metrics_collected (metrics : nat) : M unit :=
  let* r := stt_fields metrics in logger_info (fmt_record "STT Metrics" r).

Definition on_eou_metrics_collected (metrics : nat) : M unit :=
  let* r := eou_fields metrics in logger_info (fmt_record "EOU Metrics" r).

Definition on_tts_metrics_collected (metrics : nat) : M unit :=
  let* r := tts_fields metrics in logger_info (fmt_record "TTS Metrics" r).

(** The body of [on_vad_event] is the expression [None]. *)
Definition on_vad_event (event : nat) : M unit := ret tt.

(** ** The stages and their handlers *)

(** The five kinds of event a listener is registered for. *)
Inductive Stage : Type := LLM | STT | EOU | TTS | VAD.

(** The fields a stage's handler reads; the VAD handler reads none. *)
Definition stage_fields (st : Stage) (metrics : nat) : M Record_ :=
  match st with
  | LLM => llm_fields metrics
  | STT => stt_fields metrics
  | EOU => eou_fields metrics
  | TTS => tts_fields metrics
  | VAD => ret []
  end.

Definition stage_label (st : Stage) : string :=
  match st with
  | LLM => "LLM Metrics"
  | STT => "STT Metrics"
  | EOU => "EOU Metrics"
  | TTS => "TTS Metrics"
  | VAD => ""
  end.

(** The coroutine a stage's listener hands to [asyncio.create_task]. *)
Definition handler (st : Stage) (metrics : nat) : M unit :=
  match st with
  | LLM => on_llm_metrics_collected metrics
  | STT => on_stt_metrics_collected metrics
  | EOU => on_eou_metrics_collected metrics
  | TTS => on_tts_metrics_collected metrics
  | VAD => on_vad_event metrics
  end.

(** The value of a field of a record: its first entry under that key. *)
Fixpoint field (key : string) (r : Record_) : option Val :=
  match r with
  | [] => None
  | (k, v) :: r' => if String.eqb k key then Some v else field key r'
  end.

(** ** The event loop *)

(** A coroutine object: a handler applied to the event it was called with. *)
Record Coro : Type := mkCoro { coro_stage : Stage; coro_arg : nat }.

(** The running loop: the world, the tasks scheduled and not yet run, in the
    order they were created, and the exceptions of the tasks that raised
    (nothing awaits a task, so an exception stays on its task). *)
Record Loop : Type := mkLoop {
  world : World;
  tasks : list Coro;
  failed : list PyExc
}.

(** [asyncio.create_task(coro)]: schedules the coroutine and returns. *)
Definition create_task (c : Coro) (l : Loop) : Loop :=
  mkLoop (world l) (tasks l ++ [c]) (failed l).

Definition llm_metrics_wrapper (metrics : nat) : Loop -> Loop :=
  create_task (mkCoro LLM metrics).
Definition stt_metrics_wrapper (metrics : nat) : Loop -> Loop :=
  create_task (mkCoro STT metrics).
Definition eou_metrics_wrapper (metrics : nat) : Loop -> Loop :=
  create_task (mkCoro EOU metrics).
Definition tts_metrics_wrapper (metrics : nat) : Loop -> Loop :=
  create_task (mkCoro TTS metrics).
Definition vad_metrics_wrapper (event : nat) : Loop -> Loop :=
  create_task (mkCoro VAD event).

(** The four objects [SimpleAgent.__init__] registers listeners on. *)
Inductive Emitter : Type := the_llm | the_stt | the_tts | the_vad.

(** The listeners registered by the five calls of [.on(event, callback)]. *)
Definition listeners (e : Emitter) (event : string) : list (nat -> Loop -> Loop) :=
  match e with
  | the_llm =>
      if String.eqb event "metrics_collected" then [llm_metrics_wrapper] else []
  | the_stt =>
      if String.eqb event "metrics_collected" then [stt_metrics_wrapper]
      else if String.eqb event "eou_metrics_collected" then [eou_metrics_wrapper]
      else []
  | the_tts =>
      if String.eqb event "metrics_collected" then [tts_metrics_wrapper] else []
  | the_vad =>
      if String.eqb event "metrics_collected" then [vad_metrics_wrapper] else []
  end.

(** [emitter.emit(event, arg)]: calls the listeners of the event in turn. *)
Definition emit (e : Emitter) (event : string) (arg : nat) (l : Loop) : Loop :=
  foldl (fun l' cb => cb arg l') l (listeners e event).

Definition stage_emitter (st : Stage) : Emitter :=
  match st with
  | LLM => the_llm
  | STT | EOU => the_stt
  | TTS => the_tts
  | VAD => the_vad
  end.

Definition stage_event (st : Stage) : string :=
  match st with
  | EOU => "eou_metrics_collected"
  | _ => "metrics_collected"
  end.

(** A stage reports a metric event: its emitter emits the stage's event. *)
Definition report (ev : Stage * nat) (l : Loop) : Loop :=
  emit (stage_emitter ev.1) (stage_event ev.1) ev.2 l.

Definition report_all (evs : list (Stage * nat)) (l : Loop) : Loop :=
  foldl (fun l' ev => report ev l') l evs.

(** The loop runs the scheduled tasks in order.  No handler schedules a
    task, so running the tasks present runs them all. *)
Fixpoint run_tasks (cs : list Coro) (w : World) (f : list PyExc) : Loop :=
  match cs with
  | [] => mkLoop w [] f
  | c :: cs' =>
      match handler (coro_stage c) (coro_arg c) w with
      | (inr _, w') => run_tasks cs' w' f
      | (inl e, w') => run_tasks cs' w' (f ++ [e])
      end
  end.

Definition drain (l : Loop) : Loop := run_tasks (tasks l) (world l) (failed l).

(** ** What an event must carry for its handler to log *)

(** The keys of a stage's record, in the order the handler writes them. *)
Definition keys (st : Stage) : list string :=
  match st with
  | LLM => ["type"; "label"; "request_id"; "timestamp"; "duration"; "ttft";
            "cancelled"; "completion_tokens"; "prompt_tokens"; "total_tokens";
            "tokens_per_second"]
  | STT => ["type"; "label"; "request_id"; "timestamp"; "duration";
            "speech_id"; "error"; "streamed"; "audio_duration"]
  | EOU => ["type"; "label"; "timestamp"; "end_of_utterance_delay";
            "transcription_delay"; "speech_id"; "error"]
  | TTS => ["type"; "label"; "request_id"; "timestamp"; "ttfb"; "duration";
            "audio_duration"; "cancelled"; "characters_count"; "streamed";
            "speech_id"; "error"]
  | VAD => []
  end.

(** The attributes a handler reads as [metrics.name], which must exist. *)
Definition required (st : Stage) : list string :=
  match st with
  | LLM | STT | TTS => ["type"; "label"; "request_id"; "timestamp"; "duration"]
  | EOU => ["type"; "label"; "timestamp"]
  | VAD => []
  end.

(** A timestamp the conditional expression has a value for: a number, a
    false value, or a true value that has [isoformat]. *)
Definition timestamp_ok (t : Val) : bool :=
  match t with
  | VStr s => String.eqb s ""
  | VObj _ => false
  | _ => true
  end.

(** The events a stage's handler reads without raising. *)
Definition readable (st : Stage) (o : Obj) : bool :=
  forallb (fun k => bool_decide (is_Some (o !! k))) (required st)
  && match st with
     | VAD => true
     | _ => from_option timestamp_ok false (o !! "timestamp")
     end.

(** The export schema of the specification, section 6, by stage. *)
Definition spec_export_schema (st : Stage) : list string :=
  match st with
  | LLM => ["type"; "label"; "request_id"; "timestamp"; "duration";
            "time_to_first_token"; "cancelled"; "completion_token_count";
            "prompt_token_count"; "total_token_count"; "tokens_per_second"]
  | STT => ["type"; "label"; "request_id"; "timestamp"; "duration";
            "speech_id"; "error"; "streamed"; "audio_duration"]
  | EOU => ["type"; "label"; "timestamp"; "end_of_utterance_delay";
            "transcription_delay"; "speech_id"; "error"]
  | TTS => ["type"; "label"; "request_id"; "timestamp"; "time_to_first_byte";
            "duration"; "audio_duration"; "cancelled"; "character_count";
            "streamed"; "speech_id"; "error"]
  | VAD => []
  end.

(** ** Reading is pure *)

(** A computation that leaves the world as it found it. *)
Definition pure_ {A} (m : M A) : Prop := forall w, (m w).2 = w.

Lemma pure_ret {A} (a : A) : pure_ (ret a).
Proof. intros w; reflexivity. Qed.

Lemma pure_raise {A} (e : PyExc) : pure_ (raise (A:=A) e).
Proof. intros w; reflexivity. Qed.

Lemma pure_attr metrics name : pure_ (attr metrics name).
Proof.
  intros w; unfold attr.
  destruct (heap w !! metrics) as [o|]; [destruct (o !! name)|]; reflexivity.
Qed.

Lemma pure_getattr metrics name : pure_ (getattr metrics name).
Proof. intros w; unfold getattr. destruct (heap w !! metrics); reflexivity. Qed.

Lemma pure_call_isoformat v : pure_ (call_isoformat v).
Proof. intros w; destruct v; reflexivity. Qed.

Lemma pure_bind {A B} (m : M A) (k : A -> M B) :
  pure_ m -> (forall a, pure_ (k a)) -> pure_ (bind m k).
Proof.
  intros Hm Hk w; unfold bind.
  specialize (Hm w). destruct (m w) as [[e|a] w']; simpl in *; subst w'.
  - reflexivity.
  - apply Hk.
Qed.

Lemma pure_if {A} (b : bool) (m1 m2 : M A) :
  pure_ m1 -> pure_ m2 -> pure_ (if b then m1 else m2).
Proof. destruct b; auto. Qed.

Create HintDb pure_db.
#[local] Hint Resolve pure_ret pure_raise pure_attr pure_getattr
  pure_call_isoformat pure_if : pure_db.
#[local] Hint Extern 2 (pure_ (bind _ _)) =>
  apply pure_bind; [| intros ?] : pure_db.

Lemma pure_timestamp_field metrics : pure_ (timestamp_field metrics).
Proof. unfold timestamp_field. auto 10 with pure_db. Qed.

Lemma pure_error_field metrics : pure_ (error_field metrics).
Proof. unfold error_field. auto 10 with pure_db. Qed.

#[local] Hint Resolve pure_timestamp_field pure_error_field : pure_db.

Lemma pure_stage_fields st metrics : pure_ (stage_fields st metrics).
Proof.
  destruct st; cbn [stage_fields];
    unfold llm_fields, stt_fields, eou_fields, tts_fields;
    auto 30 with pure_db.
Qed.

(** ** Running the reads on a stored object *)

Lemma bind_inr {A B} (m : M A) (k : A -> M B) w a w' :
  m w = (inr a, w') -> bind m k w = k a w'.
Proof. intros H; unfold bind; rewrite H; reflexivity. Qed.

Lemma bind_inl {A B} (m : M A) (k : A -> M B) w e w' :
  m w = (inl e, w') -> bind m k w = (inl e, w').
Proof. intros H; unfold bind; rewrite H; reflexivity. Qed.

Lemma attr_Some metrics name w o v :
  heap w !! metrics = Some o -> o !! name = Some v ->
  attr metrics name w = (inr v, w).
Proof. intros Hw Ho; unfold attr; rewrite Hw, Ho; reflexivity. Qed.

Lemma attr_None metrics name w o :
  heap w !! metrics = Some o -> o !! name = None ->
  attr metrics name w = (inl (AttributeError "metrics" name), w).
Proof. intros Hw Ho; unfold attr; rewrite Hw, Ho; reflexivity. Qed.

Lemma getattr_Some metrics name w o :
  heap w !! metrics = Some o ->
  getattr metrics name w = (inr (default VNone (o !! name)), w).
Proof. intros Hw; unfold getattr; rewrite Hw; reflexivity. Qed.

(** The value of the timestamp expression on a timestamp [t]. *)
Definition timestamp_value (t : Val) : PyExc + Val :=
  if is_int_or_float t then inr t
  else if truthy t then
    match t with
    | VDatetime d => inr (VStr (isoformat d))
    | _ => inl (AttributeError (class_name t) "isoformat")
    end
  else inr VNone.

(** The value of the error expression on an error attribute [e]. *)
Definition error_value (e : Val) : Val :=
  if truthy e then VStr (py_str e) else VNone.

Lemma timestamp_field_Some metrics w o t :
  heap w !! metrics = Some o -> o !! "timestamp" = Some t ->
  timestamp_field metrics w = (timestamp_value t, w).
Proof.
  intros Hw Ho; unfold timestamp_field, timestamp_value.
  rewrite (bind_inr _ _ _ _ _ (attr_Some _ _ _ _ _ Hw Ho)).
  destruct (is_int_or_float t); [exact (attr_Some _ _ _ _ _ Hw Ho)|].
  rewrite (bind_inr _ _ _ _ _ (attr_Some _ _ _ _ _ Hw Ho)).
  destruct (truthy t); [|reflexivity].
  rewrite (bind_inr _ _ _ _ _ (attr_Some _ _ _ _ _ Hw Ho)).
  destruct t; reflexivity.
Qed.

Lemma timestamp_field_None metrics w o :
  heap w !! metrics = Some o -> o !! "timestamp" = None ->
  timestamp_field metrics w = (inl (AttributeError "metrics" "timestamp"), w).
Proof.
  intros Hw Ho; unfold timestamp_field.
  apply bind_inl, (attr_None _ _ _ _ Hw Ho).
Qed.

Lemma error_field_Some metrics w o :
  heap w !! metrics = Some o ->
  error_field metrics w = (inr (error_value (default VNone (o !! "error"))), w).
Proof.
  intros Hw; unfold error_field, error_value.
  rewrite (bind_inr _ _ _ _ _ (getattr_Some _ "error" _ _ Hw)).
  destruct (truthy _); [|reflexivity].
  rewrite (bind_inr _ _ _ _ _ (getattr_Some _ "error" _ _ Hw)). reflexivity.
Qed.

Lemma timestamp_ok_value t :
  timestamp_ok t = true <-> exists v, timestamp_value t = inr v.
Proof.
  unfold timestamp_value; destruct t as [|b|n|f|s|d|r]; simpl;
    try (split; [eauto | reflexivity]).
  - destruct (String.eqb s ""); simpl; split; eauto; try discriminate.
    intros [v Hv]; discriminate.
  - split; [discriminate | intros [v Hv]; discriminate].
Qed.

(** The value a handler writes under a key, read off the stored object. *)
Definition field_value (o : Obj) (key : string) : Val :=
  if String.eqb key "timestamp" then
    match o !! "timestamp" with
    | Some t => match timestamp_value t with inr v => v | inl _ => VNone end
    | None => VNone
    end
  else if String.eqb key "error" then error_value (default VNone (o !! "error"))
  else default VNone (o !! key).

(** The record of a stage for a stored object. *)
Definition record_of (st : Stage) (o : Obj) : Record_ :=
  (fun k => (k, field_value o k)) <$> keys st.

Lemma bind_attr {B} metrics name (k : Val -> M B) w o :
  heap w !! metrics = Some o ->
  bind (attr metrics name) k w =
  match o !! name with
  | Some v => k v w
  | None => (inl (AttributeError "metrics" name), w)
  end.
Proof.
  intros Hw. destruct (o !! name) as [v|] eqn:Ho.
  - apply bind_inr, (attr_Some _ _ _ _ _ Hw Ho).
  - apply bind_inl, (attr_None _ _ _ _ Hw Ho).
Qed.

Lemma bind_getattr {B} metrics name (k : Val -> M B) w o :
  heap w !! metrics = Some o ->
  bind (getattr metrics name) k w = k (default VNone (o !! name)) w.
Proof. intros Hw. apply bind_inr, (getattr_Some _ _ _ _ Hw). Qed.

Lemma bind_timestamp_field {B} metrics (k : Val -> M B) w o :
  heap w !! metrics = Some o ->
  bind (timestamp_field metrics) k w =
  match o !! "timestamp" with
  | Some t => match timestamp_value t with
              | inr v => k v w
              | inl e => (inl e, w)
              end
  | None => (inl (AttributeError "metrics" "timestamp"), w)
  end.
Proof.
  intros Hw. destruct (o !! "timestamp") as [t|] eqn:Ho.
  - pose proof (timestamp_field_Some _ _ _ _ Hw Ho) as Ht.
    destruct (timestamp_value t); [apply bind_inl | apply bind_inr]; exact Ht.
  - apply bind_inl, (timestamp_field_None _ _ _ Hw Ho).
Qed.

Lemma bind_error_field {B} metrics (k : Val -> M B) w o :
  heap w !! metrics = Some o ->
  bind (error_field metrics) k w =
  k (error_value (default VNone (o !! "error"))) w.
Proof. intros Hw. apply bind_inr, (error_field_Some _ _ _ Hw). Qed.

(** One step of a handler on a stored object: the next read, then a case
    on what it found. *)
Ltac run_read Hw :=
  first
    [ rewrite (bind_attr _ _ _ _ _ Hw)
    | rewrite (bind_getattr _ _ _ _ _ Hw)
    | rewrite (bind_timestamp_field _ _ _ _ Hw)
    | rewrite (bind_error_field _ _ _ _ Hw)
    | match goal with
      | |- context [match ?o !! ?k with _ => _ end] =>
          let E := fresh "E" in destruct (o !! k) eqn:E
      | |- context [match timestamp_value ?t with _ => _ end] =>
          let E := fresh "E" in destruct (timestamp_value t) eqn:E
      end ].

Lemma timestamp_value_inr t v :
  timestamp_value t = inr v -> timestamp_ok t = true.
Proof. intros H; apply timestamp_ok_value; eauto. Qed.

Lemma timestamp_value_inl t e :
  timestamp_value t = inl e -> timestamp_ok t = false.
Proof.
  intros H. destruct (timestamp_ok t) eqn:E; [|reflexivity].
  apply timestamp_ok_value in E as [v Hv]. congruence.
Qed.

(** A handler's reads return the record of the object when the object is
    readable, and raise otherwise; they leave the world as it was. *)
Lemma stage_fields_run st metrics w o :
  heap w !! metrics = Some o ->
  match stage_fields st metrics w with
  | (inr r, w') => w' = w /\ readable st o = true /\ r = record_of st o
  | (inl _, w') => w' = w /\ readable st o = false
  end.
Proof.
  intros Hw.
  destruct st; cbn [stage_fields];
    unfold llm_fields, stt_fields, eou_fields, tts_fields, readable, record_of;
    cbn [required keys forallb fmap list_fmap];
    repeat run_read Hw; unfold ret; cbn [fst snd];
    repeat match goal with
      | H : timestamp_value _ = inr _ |- _ =>
          rewrite (timestamp_value_inr _ _ H)
      | H : timestamp_value _ = inl _ |- _ =>
          rewrite (timestamp_value_inl _ _ H)
      end.
  all: cbn [from_option];
    repeat match goal with
      | H : timestamp_value _ = inr _ |- _ =>
          rewrite (timestamp_value_inr _ _ H)
      | H : timestamp_value _ = inl _ |- _ =>
          rewrite (timestamp_value_inl _ _ H)
      end;
    repeat case_bool_decide; cbn [andb];
    repeat match goal with
      | H : ¬ is_Some (Some _) |- _ => destruct H; eauto
      | H : is_Some None |- _ => destruct H; discriminate
      end;
    repeat split; try reflexivity.
  all: unfold field_value; simpl;
    repeat match goal with
      | H : _ !! _ = _ |- _ => rewrite H
      | H : timestamp_value _ = _ |- _ => rewrite H
      end; reflexivity.
Qed.

Lemma stage_fields_dangling st metrics w :
  heap w !! metrics = None -> st <> VAD ->
  stage_fields st metrics w = (inl (Dangling metrics), w).
Proof.
  intros Hw Hst.
  assert (Ha : attr metrics "type" w = (inl (Dangling metrics), w))
    by (unfold attr; rewrite Hw; reflexivity).
  destruct st; [| | | |congruence]; cbn [stage_fields];
    unfold llm_fields, stt_fields, eou_fields, tts_fields;
    apply bind_inl, Ha.
Qed.

Lemma field_record_of (f : string -> Val) ks k :
  k ∈ ks -> field k ((fun k' => (k', f k')) <$> ks) = Some (f k).
Proof.
  induction ks as [|k0 ks IH]; intros Hin; [inversion Hin|].
  cbn [fmap list_fmap field].
  destruct (String.eqb k0 k) eqn:E.
  - apply String.eqb_eq in E; subst; reflexivity.
  - apply elem_of_cons in Hin as [->|Hin]; [|auto].
    rewrite String.eqb_refl in E; discriminate.
Qed.

Lemma fst_record_of st o : (record_of st o).*1 = keys st.
Proof.
  unfold record_of. rewrite <- list_fmap_compose.
  induction (keys st) as [|k ks IH]; [reflexivity|].
  cbn [fmap list_fmap]; rewrite IH; reflexivity.
Qed.

Lemma field_value_absent o k :
  default VNone (o !! k) = VNone -> field_value o k = VNone.
Proof.
  intros H; unfold field_value.
  destruct (String.eqb k "timestamp") eqn:Et.
  - apply String.eqb_eq in Et; subst k.
    destruct (o !! "timestamp") as [t|]; [|reflexivity].
    simpl in H; subst t; reflexivity.
  - destruct (String.eqb_spec k "error") as [->|_]; [|exact H].
    rewrite H; reflexivity.
Qed.

(** What a handler does to the world, by what its reads return. *)
Lemma handler_run st metrics w :
  st <> VAD ->
  handler st metrics w =
  match stage_fields st metrics w with
  | (inr r, w') =>
      (inr tt, mkWorld (heap w') (log w' ++ [fmt_record (stage_label st) r]))
  | (inl e, w') => (inl e, w')
  end.
Proof.
  intros Hst; destruct st; [| | | |congruence]; cbn [handler stage_fields];
    unfold on_llm_metrics_collected, on_stt_metrics_collected,
      on_eou_metrics_collected, on_tts_metrics_collected, bind;
    match goal with |- context [match ?m with _ => _ end] =>
      destruct m as [[e|r] w'] end; reflexivity.
Qed.

Lemma create_task_fields c l :
  world (create_task c l) = world l /\ failed (create_task c l) = failed l /\
  tasks (create_task c l) = tasks l ++ [c].
Proof. repeat split. Qed.

Lemma report_create_task ev l :
  report ev l = create_task (mkCoro ev.1 ev.2) l.
Proof. destruct ev as [[] m]; reflexivity. Qed.

Lemma report_all_tasks evs l :
  world (report_all evs l) = world l /\
  failed (report_all evs l) = failed l /\
  tasks (report_all evs l) = tasks l ++ ((fun ev => mkCoro ev.1 ev.2) <$> evs).
Proof.
  revert l; induction evs as [|ev evs IH]; intros l; cbn [report_all foldl].
  - rewrite app_nil_r; repeat split.
  - fold (report_all evs (report ev l)).
    destruct (IH (report ev l)) as (Hw & Hf & Ht).
    rewrite Hw, Hf, Ht, report_create_task. cbn [fmap list_fmap].
    cbn [create_task world failed tasks]. rewrite <- app_assoc.
    repeat split.
Qed.

(** ** The claims about the metrics handlers *)

(** C1, as amended.  A metric event reported on an idle loop, once the loop
    has run the task its listener spawned: a VAD event leaves the loop exactly
    as it was (no record, and nothing counted: the loop holds no count of
    drops); an LLM, STT, end-of-utterance or TTS event whose attributes the
    handler can read adds exactly one record to the log; one it cannot read
    adds no record, and the exception stays on its task. *)
Theorem reported_event_outcome st metrics l o :
  tasks l = [] -> heap (world l) !! metrics = Some o ->
  (st = VAD -> drain (report (st, metrics) l) = l) /\
  (st <> VAD -> readable st o = true ->
   drain (report (st, metrics) l) =
   mkLoop (mkWorld (heap (world l))
             (log (world l) ++ [fmt_record (stage_label st) (record_of st o)]))
     [] (failed l)) /\
  (st <> VAD -> readable st o = false ->
   exists e, drain (report (st, metrics) l) =
             mkLoop (world l) [] (failed l ++ [e])).
Proof.
  intros Ht Hw. rewrite report_create_task. unfold drain, create_task.
  cbn [world tasks failed fst snd]. rewrite Ht. cbn [app run_tasks coro_stage coro_arg].
  split; [|split].
  - intros ->. cbn [handler]. unfold on_vad_event, ret.
    destruct l; simpl in *; subst; reflexivity.
  - intros Hst Hr. rewrite (handler_run _ _ _ Hst).
    pose proof (stage_fields_run st metrics _ _ Hw) as H.
    destruct (stage_fields st metrics (world l)) as [[e|r] w'].
    + destruct H as [_ H]; congruence.
    + destruct H as (-> & _ & ->). reflexivity.
  - intros Hst Hr. rewrite (handler_run _ _ _ Hst).
    pose proof (stage_fields_run st metrics _ _ Hw) as H.
    destruct (stage_fields st metrics (world l)) as [[e|r] w'].
    + destruct H as [-> _]. exists e; reflexivity.
    + destruct H as (_ & H & _); congruence.
Qed.

(** C2, as amended.  The record of a readable event has exactly the keys
    its handler writes, in the handler's order ([ttft], [completion_tokens],
    [prompt_tokens], [total_tokens], [ttfb] and [characters_count] among
    them), and a key whose attribute is missing from the event or is [None]
    holds [None]. *)
Theorem record_keys_and_absent_values st metrics w o :
  heap w !! metrics = Some o -> readable st o = true ->
  exists r, stage_fields st metrics w = (inr r, w) /\
            r.*1 = keys st /\
            forall k, k ∈ keys st -> default VNone (o !! k) = VNone ->
                      field k r = Some VNone.
Proof.
  intros Hw Hr. pose proof (stage_fields_run st metrics _ _ Hw) as H.
  destruct (stage_fields st metrics w) as [[e|r] w'].
  - destruct H as [_ H]; congruence.
  - destruct H as (-> & _ & ->). exists (record_of st o).
    split; [reflexivity|]. split; [apply fst_record_of|].
    intros k Hk Habs. unfold record_of.
    rewrite (field_record_of (field_value o) _ _ Hk).
    rewrite (field_value_absent _ _ Habs). reflexivity.
Qed.

(** C3.  In the record one of the four handlers emits, the timestamp field
    is the event's timestamp itself when that is an int or a float, the
    string its [isoformat()] returns when it is a true value of another
    type, and [None] otherwise. *)
Theorem record_timestamp st metrics w r :
  st <> VAD -> (stage_fields st metrics w).1 = inr r ->
  exists o t,
    heap w !! metrics = Some o /\ o !! "timestamp" = Some t /\
    ((is_int_or_float t = true /\ field "timestamp" r = Some t) \/
     (is_int_or_float t = false /\ truthy t = true /\
      exists d, t = VDatetime d /\
                field "timestamp" r = Some (VStr (isoformat d))) \/
     (is_int_or_float t = false /\ truthy t = false /\
      field "timestamp" r = Some VNone)).
Proof.
  intros Hst Hr.
  destruct (heap w !! metrics) as [o|] eqn:Hw;
    [|rewrite (stage_fields_dangling _ _ _ Hw Hst) in Hr; discriminate].
  pose proof (stage_fields_run st metrics _ _ Hw) as H.
  destruct (stage_fields st metrics w) as [[e|r'] w']; [discriminate|].
  cbn [fst] in Hr. injection Hr as ->. destruct H as (_ & Hread & ->).
  assert (Hk : "timestamp" ∈ keys st)
    by (destruct st; [| | | |congruence]; decide_by_compute).
  assert (Ht : exists t, o !! "timestamp" = Some t /\ timestamp_ok t = true).
  { unfold readable in Hread. apply andb_prop in Hread as [_ Hread].
    destruct st; [| | | |congruence];
      (destruct (o !! "timestamp") as [t|]; [|discriminate]; eauto). }
  destruct Ht as (t & Hot & Hok). exists o, t. split; [reflexivity|].
  split; [exact Hot|].
  unfold record_of. rewrite (field_record_of (field_value o) _ _ Hk).
  unfold field_value. cbn [String.eqb Ascii.eqb Bool.eqb]. rewrite Hot.
  unfold timestamp_value.
  destruct (is_int_or_float t) eqn:Enum; [left; auto|].
  destruct (truthy t) eqn:Etr; [|right; right; auto].
  right; left. destruct t as [|b|n|f|s|d|x]; try discriminate.
  - simpl in Hok, Etr. rewrite Hok in Etr. discriminate.
  - repeat split. exists d. split; reflexivity.
Qed.

(** C4, as amended.  Reporting does not run a handler: it leaves the world
    (the log with it) and the failed tasks as they were, and adds one
    scheduled task per reported event, in order and without bound; no event
    is dropped and none is counted. *)
Theorem report_spawns_a_task_per_event evs l :
  world (report_all evs l) = world l /\
  failed (report_all evs l) = failed l /\
  tasks (report_all evs l) = tasks l ++ ((fun ev => mkCoro ev.1 ev.2) <$> evs) /\
  length (tasks (report_all evs l)) = length (tasks l) + length evs.
Proof.
  destruct (report_all_tasks evs l) as (Hw & Hf & Ht).
  repeat split; try assumption.
  rewrite Ht, length_app, length_fmap. reflexivity.
Qed.

(** C5.  Each of the four handlers leaves every object of the store as it
    found it, the event it was given among them: it reads the event and
    writes only the log. *)
Theorem handlers_leave_the_event_unchanged metrics w :
  heap (on_llm_metrics_collected metrics w).2 = heap w /\
  heap (on_stt_metrics_collected metrics w).2 = heap w /\
  heap (on_eou_metrics_collected metrics w).2 = heap w /\
  heap (on_tts_metrics_collected metrics w).2 = heap w.
Proof.
  assert (H : forall st, st <> VAD -> heap (handler st metrics w).2 = heap w).
  { intros st Hst. rewrite (handler_run _ _ _ Hst).
    pose proof (pure_stage_fields st metrics w) as Hp.
    destruct (stage_fields st metrics w) as [[e|r] w'];
      cbn [snd] in *; subst w'; reflexivity. }
  repeat split; [apply (H LLM) | apply (H STT) | apply (H EOU) | apply (H TTS)];
    discriminate.
Qed.

(** ** More on the handlers *)

#[local] Instance Stage_eq_dec : EqDecision Stage.
Proof. solve_decision. Defined.

(** X1.  A handler that raises has written nothing; one that returns has left
    the store as it was and, the VAD handler apart, has appended exactly
    one line to the log. *)
Theorem handler_logs_one_line_or_nothing st metrics w :
  match handler st metrics w with
  | (inl _, w') => w' = w
  | (inr _, w') =>
      heap w' = heap w /\
      match st with
      | VAD => log w' = log w
      | _ => exists line, log w' = log w ++ [line]
      end
  end.
Proof.
  destruct (decide (st = VAD)) as [->|Hst]; [cbn; auto|].
  rewrite (handler_run _ _ _ Hst).
  pose proof (pure_stage_fields st metrics w) as Hp.
  destruct (stage_fields st metrics w) as [[e|r] w']; cbn [snd] in Hp; subst w'.
  - reflexivity.
  - cbn [heap log]. split; [reflexivity|].
    destruct st; try congruence; eauto.
Qed.

(** X2.  In the record the STT, end-of-utterance or TTS handler emits, the
    error field is [None] when the event has no [error] attribute or a
    false one ([None], [False], [0], the empty string), and the string
    [str(error)] otherwise. *)
Theorem record_error_field st metrics w r :
  st = STT \/ st = EOU \/ st = TTS ->
  (stage_fields st metrics w).1 = inr r ->
  exists o, heap w !! metrics = Some o /\
    field "error" r =
    Some (if truthy (default VNone (o !! "error"))
          then VStr (py_str (default VNone (o !! "error")))
          else VNone).
Proof.
  intros Hst Hr.
  assert (Hv : st <> VAD) by (destruct Hst as [->|[->| ->]]; discriminate).
  destruct (heap w !! metrics) as [o|] eqn:Hw;
    [|rewrite (stage_fields_dangling _ _ _ Hw Hv) in Hr; discriminate].
  pose proof (stage_fields_run st metrics _ _ Hw) as H.
  destruct (stage_fields st metrics w) as [[e|r'] w']; [discriminate|].
  cbn [fst] in Hr. injection Hr as ->. destruct H as (_ & _ & ->).
  exists o. split; [reflexivity|].
  assert (Hk : "error" ∈ keys st)
    by (destruct Hst as [->|[->| ->]]; decide_by_compute).
  unfold record_of. rewrite (field_record_of (field_value o) _ _ Hk).
  reflexivity.
Qed.

Lemma readable_ext st o o' :
  (forall k, k ∈ keys st -> o !! k = o' !! k) -> readable st o = readable st o'.
Proof.
  intros H. unfold readable.
  destruct st; cbn [required forallb];
    repeat match goal with
      | |- context [o !! ?k] => rewrite (H k) by decide_by_compute
      end;
    reflexivity.
Qed.

Lemma field_value_ext o o' k : o !! k = o' !! k -> field_value o k = field_value o' k.
Proof.
  intros H. unfold field_value.
  destruct (String.eqb_spec k "timestamp") as [->|_]; [rewrite H; reflexivity|].
  destruct (String.eqb_spec k "error") as [->|_]; rewrite H; reflexivity.
Qed.

Lemma record_of_ext st o o' :
  (forall k, k ∈ keys st -> o !! k = o' !! k) -> record_of st o = record_of st o'.
Proof.
  intros H. unfold record_of. induction (keys st) as [|k ks IH]; [reflexivity|].
  cbn [fmap list_fmap]. f_equal.
  - rewrite (field_value_ext o o' k) by (apply H; left). reflexivity.
  - apply IH. intros k' Hk'. apply H. right. exact Hk'.
Qed.

(** X3.  A record depends only on the attributes its handler names: two events
    that agree on the handler's keys give the same record, or both give
    none. *)
Theorem record_depends_on_its_keys st metrics metrics' w o o' r :
  heap w !! metrics = Some o -> heap w !! metrics' = Some o' ->
  (forall k, k ∈ keys st -> o !! k = o' !! k) ->
  (stage_fields st metrics w).1 = inr r <->
  (stage_fields st metrics' w).1 = inr r.
Proof.
  intros Hw Hw' Hagree.
  pose proof (stage_fields_run st metrics _ _ Hw) as H.
  pose proof (stage_fields_run st metrics' _ _ Hw') as H'.
  rewrite (readable_ext _ _ _ Hagree), (record_of_ext _ _ _ Hagree) in H.
  destruct (stage_fields st metrics w) as [[e|r1] w1];
    destruct (stage_fields st metrics' w) as [[e'|r2] w2]; cbn [fst].
  - split; discriminate.
  - destruct H as [_ H], H' as (_ & H' & _). congruence.
  - destruct H' as [_ H'], H as (_ & H & _). congruence.
  - destruct H as (_ & _ & ->), H' as (_ & _ & ->). reflexivity.
Qed.

(** The line a reported event adds to the log, if any, read off the store. *)
Definition exported_line (h : gmap nat Obj) (ev : Stage * nat) : option string :=
  match ev.1 with
  | VAD => None
  | st =>
      match h !! ev.2 with
      | Some o => if readable st o
                  then Some (fmt_record (stage_label st) (record_of st o))
                  else None
      | None => None
      end
  end.

Lemma handler_world st metrics w :
  (handler st metrics w).2 =
  mkWorld (heap w) (log w ++ option_list (exported_line (heap w) (st, metrics))).
Proof.
  destruct (decide (st = VAD)) as [->|Hst].
  - cbn. rewrite app_nil_r. destruct w; reflexivity.
  - rewrite (handler_run _ _ _ Hst).
    assert (Hl : exported_line (heap w) (st, metrics) =
                 match heap w !! metrics with
                 | Some o => if readable st o
                             then Some (fmt_record (stage_label st) (record_of st o))
                             else None
                 | None => None
                 end) by (destruct st; try congruence; reflexivity).
    rewrite Hl. destruct (heap w !! metrics) as [o|] eqn:Hw.
    + pose proof (stage_fields_run st metrics _ _ Hw) as H.
      destruct (stage_fields st metrics w) as [[e|r] w'].
      * destruct H as [-> ->]. cbn. rewrite app_nil_r. destruct w; reflexivity.
      * destruct H as (-> & -> & ->). reflexivity.
    + rewrite (stage_fields_dangling _ _ _ Hw Hst). cbn.
      rewrite app_nil_r. destruct w; reflexivity.
Qed.

Lemma run_tasks_world cs w f :
  world (run_tasks cs w f) =
  mkWorld (heap w)
    (log w ++ omap (fun c => exported_line (heap w) (coro_stage c, coro_arg c)) cs)
  /\ tasks (run_tasks cs w f) = [].
Proof.
  revert w f. induction cs as [|c cs IH]; intros w f.
  - cbn. rewrite app_nil_r. destruct w; auto.
  - cbn [run_tasks omap list_omap].
    pose proof (handler_world (coro_stage c) (coro_arg c) w) as Hh.
    destruct (handler (coro_stage c) (coro_arg c) w) as [[e|u] w'];
      cbn [snd] in Hh; subst w';
      match goal with
      | |- context [run_tasks cs ?w0 ?f0] => destruct (IH w0 f0) as [Hw Ht]
      end;
      (split; [|exact Ht]); rewrite Hw; cbn [heap log];
      destruct (exported_line (heap w) (coro_stage c, coro_arg c));
      cbn [option_list]; rewrite <- ?app_assoc, ?app_nil_r; reflexivity.
Qed.

(** X4.  The records come out in the order of the reports: once the loop has
    run its tasks, the log has grown by the lines of the events scheduled
    before and of the events reported, in that order; events the handler
    cannot read and VAD events add none, and the store is as it was. *)
Theorem records_are_logged_in_report_order evs l :
  world (drain (report_all evs l)) =
  mkWorld (heap (world l))
    (log (world l)
     ++ omap (exported_line (heap (world l)))
          (((fun c => (coro_stage c, coro_arg c)) <$> tasks l) ++ evs))
  /\ tasks (drain (report_all evs l)) = [].
Proof.
  unfold drain. destruct (report_all_tasks evs l) as (Hw & Hf & Ht).
  rewrite Hw, Hf, Ht.
  destruct (run_tasks_world
              (tasks l ++ ((fun ev : Stage * nat => mkCoro ev.1 ev.2) <$> evs))
              (world l) (failed l)) as [Hrun Hnil].
  split; [|exact Hnil]. rewrite Hrun. f_equal. f_equal.
  rewrite !omap_app. clear. f_equal.
  - generalize (tasks l). intros cs. induction cs as [|c cs IH]; [reflexivity|].
    cbn [omap list_omap fmap list_fmap]. rewrite IH. reflexivity.
  - induction evs as [|[st m] evs IH]; [reflexivity|].
    cbn [omap list_omap fmap list_fmap coro_stage coro_arg fst snd].
    rewrite IH. reflexivity.
Qed.

End Handlers.

(** ** A concrete run *)

(** Floats given by the string Python prints for them, datetimes by the
    pair of [str(d)] and [d.isoformat()]. *)
Definition ex_float_str (f : string) : string := f.
Definition ex_float_bool (f : string) : bool :=
  negb (String.eqb f "0.0") && negb (String.eqb f "-0.0").
Definition ex_datetime_str (d : string * string) : string := d.1.
Definition ex_isoformat (d : string * string) : string := d.2.

(** An LLM metrics object, with the token counts left out. *)
Definition llm_event : gmap string (PyVal string (string * string)) :=
  <["type" := VStr "llm_metrics"]> (<["label" := VStr "openai.LLM"]>
  (<["request_id" := VStr "chatcmpl-1"]> (<["timestamp" := VFloat "1730000000.5"]>
  (<["duration" := VFloat "0.75"]> (<["ttft" := VFloat "0.25"]>
  (<["cancelled" := VBool false]> ∅)))))).

(** An end-of-utterance metrics object stamped with a datetime. *)
Definition eou_event : gmap string (PyVal string (string * string)) :=
  <["type" := VStr "eou_metrics"]> (<["label" := VStr "openai.STT"]>
  (<["timestamp" :=
       VDatetime ("2024-10-27 03:33:20", "2024-10-27T03:33:20")]>
  (<["speech_id" := VStr "sp-7"]> ∅))).

(** A VAD event. *)
Definition vad_event : gmap string (PyVal string (string * string)) :=
  <["type" := VStr "vad_metrics"]> (<["timestamp" := VFloat "1730000001.0"]> ∅).

(** An idle loop whose store holds the three objects and whose log is
    empty. *)
Definition idle_loop : Loop :=
  mkLoop (mkWorld (<[0 := llm_event]> (<[1 := eou_event]> (<[2 := vad_event]> ∅))) [])
    [] [].

Abbreviation ex_stage_fields :=
  (stage_fields ex_float_str ex_float_bool ex_datetime_str ex_isoformat).
Abbreviation ex_handler :=
  (handler ex_float_str ex_float_bool ex_datetime_str ex_isoformat).
Abbreviation ex_drain :=
  (drain ex_float_str ex_float_bool ex_datetime_str ex_isoformat).
Abbreviation ex_record_of :=
  (record_of ex_float_str ex_float_bool ex_datetime_str ex_isoformat).
Abbreviation ex_fmt_record := (fmt_record ex_float_str ex_datetime_str).

Example llm_event_logged :
  log (ex_handler LLM 0 (world idle_loop)).2 =
  ["LLM Metrics: {'type': llm_metrics, 'label': openai.LLM, 'request_id': chatcmpl-1, 'timestamp': 1730000000.5, 'duration': 0.75, 'ttft': 0.25, 'cancelled': False, 'completion_tokens': None, 'prompt_tokens': None, 'total_tokens': None, 'tokens_per_second': None}"].
Proof. vm_compute. reflexivity. Qed.

Example eou_event_logged :
  log (ex_handler EOU 1 (world idle_loop)).2 =
  ["EOU Metrics: {'type': eou_metrics, 'label': openai.STT, 'timestamp': 2024-10-27T03:33:20, 'end_of_utterance_delay': None, 'transcription_delay': None, 'speech_id': sp-7, 'error': None}"].
Proof. vm_compute. reflexivity. Qed.

(** The LLM handler on the end-of-utterance object: [metrics.request_id]
    raises. *)
Example eou_event_not_an_llm_event :
  ex_handler LLM 1 (world idle_loop) =
  (inl (AttributeError "metrics" "request_id"), world idle_loop).
Proof. vm_compute. reflexivity. Qed.

(** C1 fails at a VAD event.  The claim asks that a reported event leave
    a record in the log or a counted drop, so that the loop after the event
    differs from the loop before it.  Once the loop has run the task that
    the listener spawned for a VAD event, it is the loop before the report:
    no record in its log, and nothing counted anywhere. *)
Lemma vad_event_leaves_no_trace :
  ~ (forall st metrics o,
       heap (world idle_loop) !! metrics = Some o ->
       ex_drain (report (st, metrics) idle_loop) <> idle_loop).
Proof.
  intros H. apply (H VAD 2 vad_event); reflexivity.
Qed.

Lemma reported_event_outcome_witness :
  tasks idle_loop = [] /\
  heap (world idle_loop) !! 0 = Some llm_event /\
  readable LLM llm_event = true /\
  ex_drain (report (LLM, 0) idle_loop) =
  mkLoop (mkWorld (heap (world idle_loop))
            (log (world idle_loop) ++
             [ex_fmt_record (stage_label LLM)
                (ex_record_of LLM llm_event)]))
    [] (failed idle_loop).
Proof.
  split; [reflexivity|]. split; [reflexivity|]. split; [reflexivity|].
  apply (reported_event_outcome ex_float_str ex_float_bool ex_datetime_str
           ex_isoformat LLM 0 idle_loop llm_event eq_refl eq_refl).
  - discriminate.
  - reflexivity.
Defined.

(** C2 fails on the names: the record of an LLM event has no field called
    [time_to_first_token]; the handler writes it as [ttft]. *)
Lemma llm_record_lacks_spec_names :
  ~ (forall r, (ex_stage_fields LLM 0 (world idle_loop)).1 = inr r ->
               forall k, k ∈ spec_export_schema LLM -> k ∈ r.*1).
Proof.
  intros H.
  assert (Hin : "time_to_first_token" ∈ (ex_record_of LLM llm_event).*1).
  { apply (H _ eq_refl). decide_by_compute. }
  revert Hin. rewrite fst_record_of. decide_by_compute.
Qed.

Lemma record_keys_and_absent_values_witness :
  heap (world idle_loop) !! 0 = Some llm_event /\
  readable LLM llm_event = true /\
  exists r, ex_stage_fields LLM 0 (world idle_loop) = (inr r, world idle_loop) /\
            r.*1 = keys LLM /\
            forall k, k ∈ keys LLM -> default VNone (llm_event !! k) = VNone ->
                      field k r = Some VNone.
Proof.
  split; [reflexivity|]. split; [reflexivity|].
  exact (record_keys_and_absent_values ex_float_str ex_float_bool
           ex_datetime_str ex_isoformat LLM 0 (world idle_loop) llm_event
           eq_refl eq_refl).
Defined.

Lemma record_timestamp_witness :
  EOU <> VAD /\
  (ex_stage_fields EOU 1 (world idle_loop)).1
  = inr (ex_record_of EOU eou_event) /\
  exists o t,
    heap (world idle_loop) !! 1 = Some o /\ o !! "timestamp" = Some t /\
    ((is_int_or_float t = true /\
      field "timestamp" (ex_record_of EOU eou_event) = Some t) \/
     (is_int_or_float t = false /\ truthy ex_float_bool t = true /\
      exists d, t = VDatetime d /\
                field "timestamp" (ex_record_of EOU eou_event)
                = Some (VStr (ex_isoformat d))) \/
     (is_int_or_float t = false /\ truthy ex_float_bool t = false /\
      field "timestamp" (ex_record_of EOU eou_event) = Some VNone)).
Proof.
  split; [discriminate|]. split; [reflexivity|].
  apply (record_timestamp ex_float_str ex_float_bool ex_datetime_str
           ex_isoformat EOU 1 (world idle_loop)).
  - discriminate.
  - reflexivity.
Defined.

(** C4 fails on the bound: no capacity limits the tasks that reports leave
    scheduled. *)
Lemma scheduled_tasks_are_unbounded :
  ~ (exists bound, forall evs : list (Stage * nat),
       length (tasks (report_all evs idle_loop)) <= bound).
Proof.
  intros [bound H]. specialize (H (replicate (S bound) (LLM, 0))).
  destruct (report_all_tasks (replicate (S bound) (LLM, 0)) idle_loop)
    as (_ & _ & Ht).
  rewrite Ht, length_app, length_fmap, length_replicate in H.
  cbn [idle_loop tasks length] in H. lia.
Qed.

(** An STT metrics object whose request failed, and the same object with
    an attribute no STT key names. *)
Definition stt_event : gmap string (PyVal string (string * string)) :=
  <["type" := VStr "stt_metrics"]> (<["label" := VStr "openai.STT"]>
  (<["request_id" := VStr "req-3"]> (<["timestamp" := VFloat "1730000002.25"]>
  (<["duration" := VFloat "0.0"]> (<["error" := VObj "Connection error."]>
  (<["streamed" := VBool false]> ∅)))))).

Definition stt_event_annotated : gmap string (PyVal string (string * string)) :=
  <["ttft" := VFloat "0.5"]> stt_event.

Definition stt_world : World :=
  mkWorld (<[0 := stt_event]> (<[1 := stt_event_annotated]> ∅)) [].

Example stt_event_logged :
  log (ex_handler STT 0 stt_world).2 =
  ["STT Metrics: {'type': stt_metrics, 'label': openai.STT, 'request_id': req-3, 'timestamp': 1730000002.25, 'duration': 0.0, 'speech_id': None, 'error': Connection error., 'streamed': False, 'audio_duration': None}"].
Proof. vm_compute. reflexivity. Qed.

Lemma record_error_field_witness :
  (ex_stage_fields STT 0 stt_world).1 = inr (ex_record_of STT stt_event) /\
  exists o, heap stt_world !! 0 = Some o /\
    field "error" (ex_record_of STT stt_event) =
    Some (if truthy ex_float_bool (default VNone (o !! "error"))
          then VStr (py_str ex_float_str ex_datetime_str (default VNone (o !! "error")))
          else VNone).
Proof.
  split; [reflexivity|].
  apply (record_error_field ex_float_str ex_float_bool ex_datetime_str
           ex_isoformat STT 0 stt_world).
  - left; reflexivity.
  - reflexivity.
Defined.

Lemma record_depends_on_its_keys_witness :
  heap stt_world !! 0 = Some stt_event /\
  heap stt_world !! 1 = Some stt_event_annotated /\
  ((ex_stage_fields STT 0 stt_world).1 = inr (ex_record_of STT stt_event) <->
   (ex_stage_fields STT 1 stt_world).1 = inr (ex_record_of STT stt_event)).
Proof.
  split; [reflexivity|]. split; [reflexivity|].
  apply (record_depends_on_its_keys ex_float_str ex_float_bool ex_datetime_str
           ex_isoformat STT 0 1 stt_world stt_event stt_event_annotated).
  - reflexivity.
  - reflexivity.
  - intros k Hk. unfold stt_event_annotated. symmetry. apply lookup_insert_ne.
    intros <-. revert Hk. decide_by_compute.
Defined.

End Agent.

(** ** Python strings *)

Module PyString.

(** [s.startswith(p)] *)
Definition startswith (p s : string) : bool := String.prefix p s.

(** [needle in s] *)
Fixpoint contains (needle s : string) : bool :=
  String.prefix needle s
  || match s with
     | EmptyString => false
     | String _ s' => contains needle s'
     end.

(** [s.endswith(p)] *)
Definition endswith (p s : string) : bool :=
  String.prefix (String.rev p) (String.rev s).

(** [s.split(sep)] for a separator of one character. *)
Fixpoint split (sep : Ascii.ascii) (s : string) : list string :=
  match s with
  | EmptyString => [EmptyString]
  | String c s' =>
      if Ascii.eqb c sep then EmptyString :: split sep s'
      else match split sep s' with
           | [] => [String c EmptyString]
           | x :: l => String c x :: l
           end
  end.

(** The characters [str.strip()] removes, among the ASCII ones: tab to
    carriage return, the four separators, and the space. *)
Definition isspace (c : Ascii.ascii) : bool :=
  let n := Ascii.nat_of_ascii c in
  ((9 <=? n)%nat && (n <=? 13)%nat) || ((28 <=? n)%nat && (n <=? 32)%nat).

Fixpoint lstrip (s : string) : string :=
  match s with
  | EmptyString => EmptyString
  | String c s' => if isspace c then lstrip s' else s
  end.

Fixpoint rstrip (s : string) : string :=
  match s with
  | EmptyString => EmptyString
  | String c s' =>
      match rstrip s' with
      | EmptyString => if isspace c then EmptyString else String c EmptyString
      | r => String c r
      end
  end.

(** [s.strip()] *)
Definition strip (s : string) : string := rstrip (lstrip s).

Example split_anchor : split "#"%char "../agent/myagent.py#L1" = ["../agent/myagent.py"; "L1"].
Proof. reflexivity. Qed.

Example split_empty : split "#"%char "" = [""].
Proof. reflexivity. Qed.

Example strip_both : strip "  a b	 " = "a b".
Proof. reflexivity. Qed.

Example endswith_md : endswith ".md" "index.md" = true /\ endswith ".md" "md" = false.
Proof. split; reflexivity. Qed.

Lemma startswith_cons c p s :
  startswith (String c p) (String c s) = startswith p s.
Proof.
  unfold startswith; cbn [String.prefix].
  destruct (Ascii.ascii_dec c c); [reflexivity | congruence].
Qed.

End PyString.

(** ** scripts/validate-docs.py *)

Module ValidateDocs.

Import PyString.

(** The validator object.  Its lists of required files and the mapping from
    source files to documentation are constants, given below. *)
Record DocumentationValidator : Type := mkValidator {
  docs_dir : string;
  errors : list string;
  warnings : list string;
  info_messages : list string;
  check_timestamps : bool;
  strict_timestamps : bool;
  update_timestamps : bool
}.

Definition add_error (msg : string) (v : DocumentationValidator) :=
  mkValidator (docs_dir v) (errors v ++ [msg]) (warnings v) (info_messages v)
    (check_timestamps v) (strict_timestamps v) (update_timestamps v).

Definition add_warning (msg : string) (v : DocumentationValidator) :=
  mkValidator (docs_dir v) (errors v) (warnings v ++ [msg]) (info_messages v)
    (check_timestamps v) (strict_timestamps v) (update_timestamps v).

Definition add_info (msg : string) (v : DocumentationValidator) :=
  mkValidator (docs_dir v) (errors v) (warnings v) (info_messages v ++ [msg])
    (check_timestamps v) (strict_timestamps v) (update_timestamps v).

Definition required_files : list string :=
  ["index.md"; "architecture.md"; "development-workflow.md";
   "coding-standards.md"; "lessons-learned.md"].

Definition required_service_files : list string :=
  ["services/agent.md"; "services/whisper.md"; "services/ollama.md";
   "services/kokoro.md"; "services/livekit.md"; "services/frontend.md"].

(** [d[k] = v] on a dict kept as the list of its items: a key already
    present keeps its place and takes the new value. *)
Fixpoint dict_set (k v : string) (d : list (string * string)) : list (string * string) :=
  match d with
  | [] => [(k, v)]
  | (k', v') :: d' =>
      if String.eqb k' k then (k, v) :: d' else (k', v') :: dict_set k v d'
  end.

(** The dict display of [__init__], entry by entry; it names
    ["livekit/Dockerfile"] twice. *)
Definition source_to_doc_mapping : list (string * string) :=
  foldl (fun d kv => dict_set kv.1 kv.2 d) []
    [("agent/myagent.py", "services/agent.md");
     ("agent/Dockerfile", "services/agent.md");
     ("agent/requirements.txt", "services/agent.md");
     ("whisper/Dockerfile", "services/whisper.md");
     ("ollama/Dockerfile", "services/ollama.md");
     ("ollama/entrypoint.sh", "services/ollama.md");
     ("livekit/Dockerfile", "services/kokoro.md");
     ("livekit/Dockerfile", "services/livekit.md");
     ("voice-assistant-frontend/package.json", "services/frontend.md");
     ("voice-assistant-frontend/Dockerfile", "services/frontend.md");
     ("voice-assistant-frontend/app/layout.tsx", "services/frontend.md");
     ("voice-assistant-frontend/app/page.tsx", "services/frontend.md");
     ("voice-assistant-frontend/next.config.mjs", "services/frontend.md");
     ("voice-assistant-frontend/tsconfig.json", "services/frontend.md");
     ("docker-compose.yml", "architecture.md");
     ("README.md", "index.md")].

(** What [read_text] gives: the content, or the message of the exception
    it raised. *)
Inductive ReadResult : Type :=
| Content (text : string)
| ReadError (msg : string).

(** The command line, as [argparse] returns it. *)
Record Args : Type := mkArgs {
  arg_docs_dir : string;
  arg_strict : bool;
  arg_check_timestamps : bool;
  arg_strict_timestamps : bool;
  arg_update_timestamps : bool
}.

Section Environment.

(** *** What the file system, [pathlib] and [re] answer

    Paths are kept as the strings [str(path)] gives. *)

(** [Path(p).exists()] *)
Context (path_exists : string -> bool).
(** [list(Path(d).rglob(pattern))] *)
Context (rglob : string -> string -> list string).
(** [Path(p).read_text(encoding="utf-8")] *)
Context (read_text : string -> ReadResult).
(** [str(Path(a) / b)] *)
Context (joinpath : string -> string -> string).
(** [str(Path(p).relative_to(base))], on the paths [rglob] found under
    [base], where it does not raise. *)
Context (relative_to : string -> string -> string).
(** [str(Path(p).with_suffix(""))], [Path(p).name] and [str(Path(p).parent)] *)
Context (with_suffix_empty : string -> string).
Context (name : string -> string).
Context (parent : string -> string).
(** [re.findall(r'\[([^\]]+)\]\(([^)]+)\)', content)]: the pairs of link
    text and link target. *)
Context (findall_links : string -> list (string * string)).
(** [re.search(r'\[[^\]]+\]\([^)]+\)', line)] finds a match. *)
Context (search_link : string -> bool).
(** The names [check_python_docstrings] and [check_typescript_docstrings]
    report for the content of a file: the functions their patterns find
    and find no docstring for, in order. *)
Context (python_missing_docstring : string -> list string).
(** For TypeScript, before the test [func_name and not
    func_name.startswith("_")]. *)
Context (typescript_missing_jsdoc : string -> list string).
(** For a source file and a documentation path that exist, with
    [time_diff = doc_mtime - source_mtime] and
    [days_old = abs(time_diff) / (24 * 3600)]:
    [time_diff < 0], [days_old > 7], [time_diff < 3600], and the text of
    [{days_old:.1f}]. *)
Context (time_diff_negative : string -> string -> bool).
Context (days_old_over_7 : string -> string -> bool).
Context (time_diff_under_3600 : string -> string -> bool).
Context (days_old_text : string -> string -> string).
(** [os.utime(doc_path, ...)]: [None] when it returns, the message of the
    exception when it raises. *)
Context (utime : string -> option string).

Definition check_required_files (v : DocumentationValidator) : DocumentationValidator :=
  let all_required := required_files ++ required_service_files in
  foldl (fun v file_path =>
           let full_path := joinpath (docs_dir v) file_path in
           if negb (path_exists full_path)
           then add_error ("Missing required file: " +:+ file_path) v
           else v)
        v all_required.

Definition is_valid_target (v : DocumentationValidator)
    (target source_file : string) (valid_targets : gset string) : bool :=
  (* Direct match *)
  if bool_decide (target ∈ valid_targets) then true
  (* Special cases for external file references *)
  else if startswith "../" target then true
  else
    (* Check relative to source file *)
    let source_dir := relative_to (parent source_file) (docs_dir v) in
    if negb (String.eqb source_dir ".")
       && bool_decide (joinpath source_dir target ∈ valid_targets)
    then true
    (* Check with .md extension *)
    else if negb (endswith ".md" target)
            && bool_decide (target +:+ ".md" ∈ valid_targets)
    then true
    (* Special case for services/index.md *)
    else if String.eqb target "services/index.md" then true
    else false.

(** [link_target.startswith(("http://", "https://", "mailto:", "#"))] *)
Definition is_external (link_target : string) : bool :=
  startswith "http://" link_target || startswith "https://" link_target
  || startswith "mailto:" link_target || startswith "#" link_target.

(** [link_target.split("#")[0].strip()] *)
Definition clean_target (link_target : string) : string :=
  strip (hd "" (split "#"%char link_target)).

Definition invalid_reference_message (v : DocumentationValidator)
    (file_path link_text link_target : string) : string :=
  "Invalid reference in " +:+ relative_to file_path (docs_dir v) +:+ ": "
  +:+ "[" +:+ link_text +:+ "](" +:+ link_target +:+ ")".

(** The body of the loop of [check_file_references], for one match. *)
Definition check_link (file_path : string) (valid_targets : gset string)
    (v : DocumentationValidator) (m : string * string) : DocumentationValidator :=
  let '(link_text, link_target) := m in
  (* Skip external links *)
  if is_external link_target then v
  else
    let target := clean_target link_target in
    if negb (is_valid_target v target file_path valid_targets)
    then add_error (invalid_reference_message v file_path link_text link_target) v
    else v.

(** The loop of [check_file_references] over the matches. *)
Definition check_links (file_path : string) (valid_targets : gset string)
    (matches : list (string * string)) (v : DocumentationValidator) : DocumentationValidator :=
  foldl (check_link file_path valid_targets) v matches.

Definition check_file_references (file_path : string) (valid_targets : gset string)
    (v : DocumentationValidator) : DocumentationValidator :=
  match read_text file_path with
  | ReadError e => add_error ("Could not read " +:+ file_path +:+ ": " +:+ e) v
  | Content content => check_links file_path valid_targets (findall_links content) v
  end.

(** The targets one markdown file makes valid. *)
Definition targets_of (v : DocumentationValidator) (md_file : string) : gset string :=
  let rel_path := relative_to md_file (docs_dir v) in
  {[ rel_path; with_suffix_empty rel_path; name rel_path;
     name (with_suffix_empty rel_path) ]}.

Definition validate_cross_references (v : DocumentationValidator) : DocumentationValidator :=
  let md_files := rglob (docs_dir v) "*.md" in
  let valid_targets := foldl (fun s md_file => s ∪ targets_of v md_file) ∅ md_files in
  foldl (fun v md_file => check_file_references md_file valid_targets v) v md_files.

(** The loop of [check_markdown_issues] over the numbered lines. *)
Definition check_markdown_issues (content file_path : string)
    (v : DocumentationValidator) : DocumentationValidator :=
  let lines := split "010"%char content in
  foldl (fun v il =>
           let '(i, line) := il in
           let rel := relative_to file_path (docs_dir v) in
           let v :=
             if contains "[](" line
             then add_warning ("Empty link text in " +:+ rel +:+ ":" +:+ pretty i) v
             else v in
           if contains "[" line && contains "](" line && negb (search_link line)
           then add_warning ("Potential malformed link in " +:+ rel +:+ ":"
                             +:+ pretty i +:+ ": " +:+ strip line) v
           else v)
        v (zip (seq 1 (length lines)) lines).

Definition validate_markdown_links (v : DocumentationValidator) : DocumentationValidator :=
  let md_files := rglob (docs_dir v) "*.md" in
  foldl (fun v md_file =>
           match read_text md_file with
           | ReadError e =>
               add_error ("Could not read " +:+ md_file +:+ ": " +:+ e) v
           | Content content => check_markdown_issues content md_file v
           end)
        v md_files.

Definition check_python_docstrings (file_path : string)
    (v : DocumentationValidator) : DocumentationValidator :=
  match read_text file_path with
  | ReadError _ => v
  | Content content =>
      foldl (fun v func_name =>
               add_warning ("Function " +:+ func_name +:+ " in " +:+ file_path
                            +:+ " may be missing docstring") v)
            v (python_missing_docstring content)
  end.

Definition check_typescript_docstrings (file_path : string)
    (v : DocumentationValidator) : DocumentationValidator :=
  match read_text file_path with
  | ReadError _ => v
  | Content content =>
      foldl (fun v func_name =>
               if negb (String.eqb func_name "") && negb (startswith "_" func_name)
               then add_warning ("Function " +:+ func_name +:+ " in " +:+ file_path
                                 +:+ " may be missing JSDoc") v
               else v)
            v (typescript_missing_jsdoc content)
  end.

(** ["node_modules" in str(f) or ".git" in str(f)] *)
Definition skipped (f : string) : bool :=
  contains "node_modules" f || contains ".git" f.

Definition validate_docstring_standards (v : DocumentationValidator) : DocumentationValidator :=
  let python_files := rglob "." "*.py" in
  let v := foldl (fun v py_file =>
                    if skipped py_file then v else check_python_docstrings py_file v)
                 v python_files in
  let ts_files := rglob "." "*.ts" ++ rglob "." "*.tsx" in
  foldl (fun v ts_file =>
           if skipped ts_file then v else check_typescript_docstrings ts_file v)
        v ts_files.

Definition update_documentation_timestamps
    (timestamp_issues : list (string * string))
    (v : DocumentationValidator) : DocumentationValidator :=
  foldl (fun v issue =>
           let doc_file := issue.2 in
           let doc_path := joinpath (docs_dir v) doc_file in
           match utime doc_path with
           | None => add_info ("Updated timestamp for " +:+ doc_file) v
           | Some e => add_warning ("Failed to update timestamp for " +:+ doc_file
                                    +:+ ": " +:+ e) v
           end)
        v timestamp_issues.

(** The loop of [validate_timestamps] over the items of the mapping: the
    validator and the issues found so far. *)
Definition timestamp_step (acc : DocumentationValidator * list (string * string))
    (item : string * string) : DocumentationValidator * list (string * string) :=
  let '(v, timestamp_issues) := acc in
  let '(source_file, doc_file) := item in
  let doc_path := joinpath (docs_dir v) doc_file in
  if negb (path_exists source_file)
  then (add_warning ("Source file not found: " +:+ source_file) v, timestamp_issues)
  else if negb (path_exists doc_path)
  then (add_error ("Documentation file not found: " +:+ doc_file) v, timestamp_issues)
  else if time_diff_negative source_file doc_path then
    let days := days_old_text source_file doc_path in
    ((if strict_timestamps v || days_old_over_7 source_file doc_path
      then add_error ("Documentation severely outdated: " +:+ doc_file +:+ " is "
                      +:+ days +:+ " days older than " +:+ source_file) v
      else add_warning ("Documentation outdated: " +:+ doc_file +:+ " is "
                        +:+ days +:+ " days older than " +:+ source_file) v),
     timestamp_issues ++ [(source_file, doc_file)])
  else if time_diff_under_3600 source_file doc_path
  then (add_info ("Documentation current: " +:+ doc_file
                  +:+ " is up to date with " +:+ source_file) v, timestamp_issues)
  else (add_info ("Documentation current: " +:+ doc_file
                  +:+ " is newer than " +:+ source_file) v, timestamp_issues).

Definition validate_timestamps (v : DocumentationValidator) : DocumentationValidator :=
  let '(v, timestamp_issues) := foldl timestamp_step (v, []) source_to_doc_mapping in
  match update_timestamps v, errors v with
  | true, [] => update_documentation_timestamps timestamp_issues v
  | _, _ => v
  end.

(** [validate_all]: the validator after the checks, and the value
    returned.  [print_results] only prints. *)
Definition validate_all (v : DocumentationValidator) : DocumentationValidator * bool :=
  let v := check_required_files v in
  let v := validate_cross_references v in
  let v := validate_markdown_links v in
  let v := validate_docstring_standards v in
  let v := if check_timestamps v then validate_timestamps v else v in
  (v, (length (errors v) =? 0)%nat).

(** The validator [main] builds from the command line. *)
Definition new_validator (args : Args) : DocumentationValidator :=
  mkValidator (arg_docs_dir args) [] [] []
    (arg_check_timestamps args) (arg_strict_timestamps args)
    (arg_update_timestamps args).

(** [main]: the status the process exits with. *)
Definition main (args : Args) : Z :=
  if negb (path_exists (arg_docs_dir args)) then 1%Z
  else if arg_update_timestamps args && negb (arg_check_timestamps args) then 1%Z
  else
    let '(validator, success) := validate_all (new_validator args) in
    if negb success then 1%Z
    else if arg_strict args && negb (bool_decide (warnings validator = [])) then 1%Z
    else 0%Z.

(** *** The result and the exit status *)

Lemma length_zero_nil {A} (l : list A) : (length l =? 0)%nat = true <-> l = [].
Proof. destruct l; simpl; split; intros H; try reflexivity; discriminate. Qed.

Lemma validate_all_result v :
  (validate_all v).2 = true <-> errors (validate_all v).1 = [].
Proof. unfold validate_all; cbn [fst snd]. apply length_zero_nil. Qed.

(** C8.  When [main] reaches the validation (the documentation directory
    exists and [--update-timestamps] comes with [--check-timestamps]), the
    run succeeds, [validate_all] returning [True] and the process exiting
    with status 0, exactly when the validator's errors are empty after the
    checks and, under [--strict], its warnings are empty too; without
    [--strict], warnings never make it fail. *)
Theorem validation_succeeds_iff args :
  path_exists (arg_docs_dir args) = true ->
  (arg_update_timestamps args = true -> arg_check_timestamps args = true) ->
  let result := validate_all (new_validator args) in
  (result.2 = true /\ main args = 0%Z <->
   errors result.1 = [] /\ (arg_strict args = true -> warnings result.1 = []))
  /\ (arg_strict args = false -> errors result.1 = [] -> main args = 0%Z).
Proof.
  intros Hdir Hcombo result.
  assert (Hmain : main args =
                  if negb result.2 then 1%Z
                  else if arg_strict args
                          && negb (bool_decide (warnings result.1 = []))
                       then 1%Z else 0%Z).
  { unfold main. rewrite Hdir. cbn [negb].
    destruct (arg_update_timestamps args) eqn:Hu.
    - rewrite (Hcombo eq_refl). cbn [negb andb]. subst result.
      destruct (validate_all (new_validator args)); reflexivity.
    - cbn [andb]. subst result.
      destruct (validate_all (new_validator args)); reflexivity. }
  pose proof (validate_all_result (new_validator args)) as Hres.
  fold result in Hres. rewrite Hmain. clear Hmain.
  destruct (result.2) eqn:Hok; cbn [negb].
  - assert (He : errors result.1 = []) by (apply Hres; reflexivity).
    destruct (arg_strict args); cbn [andb].
    + case_bool_decide as Hw; cbn [negb]; split.
      * split; [intros _; split; [exact He | intros _; exact Hw]
               | intros _; split; reflexivity].
      * intros Hs; discriminate Hs.
      * split; [intros [_ H]; discriminate H
               | intros [_ H]; destruct Hw; apply H; reflexivity].
      * intros Hs; discriminate Hs.
    + split.
      * split; [intros _; split; [exact He | intros Hs; discriminate Hs]
               | intros _; split; reflexivity].
      * intros _ _; reflexivity.
  - assert (He : errors result.1 <> []).
    { intros He. apply Hres in He. discriminate He. }
    split.
    + split; [intros [H _]; discriminate H | intros [H _]; destruct He; exact H].
    + intros _ H; destruct He; exact H.
Qed.

(** *** References to the parent directory *)

Lemma startswith_parent_inv s :
  startswith "../" s = true ->
  exists rest, s = String "." (String "." (String "/" rest)).
Proof.
  unfold startswith. intros H.
  destruct s as [|c1 s]; [discriminate|]. cbn [String.prefix] in H.
  destruct (Ascii.ascii_dec "." c1) as [<-|]; [|discriminate].
  destruct s as [|c2 s]; [discriminate|]. cbn [String.prefix] in H.
  destruct (Ascii.ascii_dec "." c2) as [<-|]; [|discriminate].
  destruct s as [|c3 s]; [discriminate|]. cbn [String.prefix] in H.
  destruct (Ascii.ascii_dec "/" c3) as [<-|]; [|discriminate].
  exists s; reflexivity.
Qed.

Lemma rstrip_cons_not_space c s :
  isspace c = false -> rstrip (String c s) = String c (rstrip s).
Proof. intros H; cbn [rstrip]. destruct (rstrip s); rewrite ?H; reflexivity. Qed.

(** A string that starts with [../] still does after [strip()]. *)
Lemma strip_keeps_parent_prefix s :
  startswith "../" s = true -> startswith "../" (strip s) = true.
Proof.
  intros H. apply startswith_parent_inv in H as [rest ->].
  unfold strip. cbn [lstrip].
  replace (isspace ".") with false by reflexivity.
  rewrite !rstrip_cons_not_space by reflexivity.
  rewrite !startswith_cons. destruct (rstrip rest); reflexivity.
Qed.

(** ... and before its first [#]. *)
Lemma split_keeps_parent_prefix s :
  startswith "../" s = true ->
  startswith "../" (hd "" (split "#"%char s)) = true.
Proof.
  intros H. apply startswith_parent_inv in H as [rest ->].
  cbn [split]. replace (Ascii.eqb "." "#") with false by reflexivity.
  replace (Ascii.eqb "/" "#") with false by reflexivity.
  destruct (split "#" rest) as [|x l]; cbn [hd]; rewrite !startswith_cons;
    [reflexivity | destruct x; reflexivity].
Qed.

Lemma clean_target_keeps_parent_prefix link_target :
  startswith "../" link_target = true ->
  startswith "../" (clean_target link_target) = true.
Proof.
  intros H. unfold clean_target.
  apply strip_keeps_parent_prefix, split_keeps_parent_prefix, H.
Qed.

Lemma is_valid_target_parent v target source_file valid_targets :
  startswith "../" target = true ->
  is_valid_target v target source_file valid_targets = true.
Proof.
  intros H. unfold is_valid_target. rewrite H.
  destruct (bool_decide _); reflexivity.
Qed.

Lemma is_valid_target_docs_dir v v' target source_file valid_targets :
  docs_dir v = docs_dir v' ->
  is_valid_target v target source_file valid_targets
  = is_valid_target v' target source_file valid_targets.
Proof. intros H; unfold is_valid_target; rewrite H; reflexivity. Qed.

(** The matches [check_links] reports: not external, and not valid. *)
Definition reported (v : DocumentationValidator) (file_path : string)
    (valid_targets : gset string) (m : string * string) : bool :=
  negb (is_external m.2)
  && negb (is_valid_target v (clean_target m.2) file_path valid_targets).

Lemma check_links_errors file_path valid_targets matches v0 v :
  docs_dir v = docs_dir v0 ->
  check_links file_path valid_targets matches v =
  mkValidator (docs_dir v)
    (errors v ++ ((fun m => invalid_reference_message v0 file_path m.1 m.2)
                  <$> List.filter (reported v0 file_path valid_targets) matches))
    (warnings v) (info_messages v)
    (check_timestamps v) (strict_timestamps v) (update_timestamps v).
Proof.
  revert v. induction matches as [|[link_text link_target] matches IH]; intros v Hd.
  - cbn. rewrite app_nil_r. destruct v; reflexivity.
  - change (check_links file_path valid_targets ((link_text, link_target) :: matches) v)
      with (check_links file_path valid_targets matches
              (check_link file_path valid_targets v (link_text, link_target))).
    cbn [List.filter check_link]. unfold reported at 1. cbn [fst snd].
    rewrite (is_valid_target_docs_dir v v0) by exact Hd.
    destruct (is_external link_target); cbn [negb andb]; [apply IH, Hd|].
    destruct (is_valid_target v0 _ _ _); cbn [negb]; [apply IH, Hd|].
    rewrite IH by exact Hd. cbn [fmap list_fmap add_error docs_dir errors warnings
      info_messages check_timestamps strict_timestamps update_timestamps fst snd].
    unfold invalid_reference_message. rewrite Hd, <- app_assoc. reflexivity.
Qed.

(** C9.  A target that begins with [../] is valid whatever the valid
    targets and whether or not a file is there; and the errors that the
    check of a file's links adds are the messages of the links it reports,
    none of which has a target that begins with [../]. *)
Theorem parent_links_are_never_reported v file_path valid_targets matches :
  (forall target source_file,
     startswith "../" target = true ->
     is_valid_target v target source_file valid_targets = true) /\
  (errors (check_links file_path valid_targets matches v) =
   errors v ++ ((fun m => invalid_reference_message v file_path m.1 m.2)
                <$> List.filter (reported v file_path valid_targets) matches)) /\
  (forall m, In m (List.filter (reported v file_path valid_targets) matches) ->
             startswith "../" m.2 = false).
Proof.
  split; [intros; apply is_valid_target_parent; assumption|]. split.
  - rewrite (check_links_errors _ _ _ v v eq_refl). reflexivity.
  - intros m Hm. apply filter_In in Hm as [_ Hm].
    destruct (startswith "../" m.2) eqn:E; [|reflexivity].
    unfold reported in Hm.
    rewrite (is_valid_target_parent _ _ _ _ (clean_target_keeps_parent_prefix _ E)) in Hm.
    rewrite andb_false_r in Hm. discriminate.
Qed.

(** *** What the checks keep *)

(** [v'] is [v] with messages appended: the directory and the flags are
    the same and each list of [v] starts the list of [v']. *)
Definition extends (v v' : DocumentationValidator) : Prop :=
  docs_dir v' = docs_dir v /\
  check_timestamps v' = check_timestamps v /\
  strict_timestamps v' = strict_timestamps v /\
  update_timestamps v' = update_timestamps v /\
  errors v `prefix_of` errors v' /\
  warnings v `prefix_of` warnings v' /\
  info_messages v `prefix_of` info_messages v'.

(** [v'] is [v] with warnings appended and nothing else changed. *)
Definition adds_warnings (v v' : DocumentationValidator) : Prop :=
  docs_dir v' = docs_dir v /\
  check_timestamps v' = check_timestamps v /\
  strict_timestamps v' = strict_timestamps v /\
  update_timestamps v' = update_timestamps v /\
  errors v' = errors v /\
  warnings v `prefix_of` warnings v' /\
  info_messages v' = info_messages v.

Lemma extends_refl v : extends v v.
Proof. repeat split; reflexivity. Qed.

Lemma extends_trans v1 v2 v3 : extends v1 v2 -> extends v2 v3 -> extends v1 v3.
Proof.
  intros (Hd & Hc & Hs & Hu & He & Hw & Hi) (Hd' & Hc' & Hs' & Hu' & He' & Hw' & Hi').
  repeat split; try congruence; etransitivity; eassumption.
Qed.

Lemma adds_warnings_refl v : adds_warnings v v.
Proof. repeat split; reflexivity. Qed.

Lemma adds_warnings_trans v1 v2 v3 :
  adds_warnings v1 v2 -> adds_warnings v2 v3 -> adds_warnings v1 v3.
Proof.
  intros (Hd & Hc & Hs & Hu & He & Hw & Hi) (Hd' & Hc' & Hs' & Hu' & He' & Hw' & Hi').
  repeat split; try congruence. etransitivity; eassumption.
Qed.

Lemma adds_warnings_extends v v' : adds_warnings v v' -> extends v v'.
Proof.
  intros (Hd & Hc & Hs & Hu & He & Hw & Hi).
  repeat split; try assumption; [rewrite He | rewrite Hi]; reflexivity.
Qed.

Lemma add_error_extends msg v : extends v (add_error msg v).
Proof. repeat split; try reflexivity. apply prefix_app_r. reflexivity. Qed.

Lemma add_warning_adds msg v : adds_warnings v (add_warning msg v).
Proof. repeat split; try reflexivity. apply prefix_app_r. reflexivity. Qed.

Lemma add_info_extends msg v : extends v (add_info msg v).
Proof. repeat split; try reflexivity. apply prefix_app_r. reflexivity. Qed.

Lemma foldl_extends {A} (f : DocumentationValidator -> A -> DocumentationValidator) l v :
  (forall v x, extends v (f v x)) -> extends v (foldl f v l).
Proof.
  intros Hf. revert v. induction l as [|x l IH]; intros v; [apply extends_refl|].
  cbn [foldl]. eapply extends_trans; [apply Hf | apply IH].
Qed.

Lemma foldl_adds_warnings {A}
    (f : DocumentationValidator -> A -> DocumentationValidator) l v :
  (forall v x, adds_warnings v (f v x)) -> adds_warnings v (foldl f v l).
Proof.
  intros Hf. revert v. induction l as [|x l IH]; intros v; [apply adds_warnings_refl|].
  cbn [foldl]. eapply adds_warnings_trans; [apply Hf | apply IH].
Qed.

Create HintDb checks.
#[local] Hint Resolve extends_refl adds_warnings_refl add_error_extends
  add_warning_adds add_info_extends adds_warnings_extends : checks.

Lemma check_required_files_extends v : extends v (check_required_files v).
Proof.
  unfold check_required_files. apply foldl_extends. intros v' f.
  destruct (negb _); auto with checks.
Qed.

Lemma check_link_extends file_path valid_targets v m :
  extends v (check_link file_path valid_targets v m).
Proof.
  destruct m as [link_text link_target]. unfold check_link.
  destruct (is_external _); [auto with checks|].
  destruct (negb _); auto with checks.
Qed.

Lemma check_file_references_extends file_path valid_targets v :
  extends v (check_file_references file_path valid_targets v).
Proof.
  unfold check_file_references, check_links.
  destruct (read_text file_path); [|auto with checks].
  apply foldl_extends. intros; apply check_link_extends.
Qed.

Lemma validate_cross_references_extends v : extends v (validate_cross_references v).
Proof.
  unfold validate_cross_references. apply foldl_extends.
  intros; apply check_file_references_extends.
Qed.

(** Markdown issues are warnings: [check_markdown_issues] changes nothing
    but the list of warnings, which it only extends. *)
Lemma check_markdown_issues_adds content file_path v :
  adds_warnings v (check_markdown_issues content file_path v).
Proof.
  unfold check_markdown_issues. apply foldl_adds_warnings.
  intros v' [i line].
  eapply adds_warnings_trans with
    (v2 := if contains "[](" line
           then add_warning ("Empty link text in "
                             +:+ relative_to file_path (docs_dir v') +:+ ":"
                             +:+ pretty i) v'
           else v').
  - destruct (contains "[](" line); auto with checks.
  - destruct (contains "[](" line); cbn [add_warning docs_dir];
      destruct (_ && _); auto with checks.
Qed.

Lemma validate_markdown_links_extends v : extends v (validate_markdown_links v).
Proof.
  unfold validate_markdown_links. apply foldl_extends. intros v' md_file.
  destruct (read_text md_file); [|auto with checks].
  apply adds_warnings_extends, check_markdown_issues_adds.
Qed.

Lemma check_python_docstrings_adds file_path v :
  adds_warnings v (check_python_docstrings file_path v).
Proof.
  unfold check_python_docstrings.
  destruct (read_text file_path); [|auto with checks].
  apply foldl_adds_warnings. auto with checks.
Qed.

Lemma check_typescript_docstrings_adds file_path v :
  adds_warnings v (check_typescript_docstrings file_path v).
Proof.
  unfold check_typescript_docstrings.
  destruct (read_text file_path); [|auto with checks].
  apply foldl_adds_warnings. intros v' n. destruct (_ && _); auto with checks.
Qed.

Lemma validate_docstring_standards_adds v :
  adds_warnings v (validate_docstring_standards v).
Proof.
  unfold validate_docstring_standards. cbv zeta.
  match goal with
  | |- adds_warnings v (foldl ?g (foldl ?f v ?l1) ?l2) =>
      apply (adds_warnings_trans v (foldl f v l1));
        apply foldl_adds_warnings
  end;
    intros v' f; destruct (skipped f);
    auto using check_python_docstrings_adds, check_typescript_docstrings_adds
      with checks.
Qed.

(** X5.  The docstring check can only warn: whatever the source files hold,
    [validate_docstring_standards] leaves the errors, the info messages,
    the directory and the flags as they were and only appends warnings.
    Missing docstrings fail a run under [--strict] alone. *)
Theorem docstring_check_only_warns v :
  let v' := validate_docstring_standards v in
  errors v' = errors v /\
  info_messages v' = info_messages v /\
  (exists added, warnings v' = warnings v ++ added) /\
  docs_dir v' = docs_dir v /\
  check_timestamps v' = check_timestamps v /\
  strict_timestamps v' = strict_timestamps v /\
  update_timestamps v' = update_timestamps v.
Proof.
  intros v'.
  destruct (validate_docstring_standards_adds v)
    as (Hd & Hc & Hs & Hu & He & Hw & Hi).
  fold v' in Hd, Hc, Hs, Hu, He, Hw, Hi.
  repeat split; assumption.
Qed.

(** X6.  When every markdown file can be read, the check of the markdown links
    can only warn. *)
Theorem markdown_check_only_warns v :
  (forall md_file, In md_file (rglob (docs_dir v) "*.md") ->
                   exists text, read_text md_file = Content text) ->
  adds_warnings v (validate_markdown_links v).
Proof.
  unfold validate_markdown_links. generalize (rglob (docs_dir v) "*.md").
  intros l. revert v. induction l as [|md l IH]; intros v H; [apply adds_warnings_refl|].
  cbn [foldl]. destruct (H md (or_introl eq_refl)) as [text ->].
  eapply adds_warnings_trans; [apply check_markdown_issues_adds|].
  apply IH. intros md' Hin. apply H. right. exact Hin.
Qed.

Lemma update_documentation_timestamps_errors issues v :
  extends v (update_documentation_timestamps issues v)
  /\ errors (update_documentation_timestamps issues v) = errors v.
Proof.
  unfold update_documentation_timestamps. revert v.
  induction issues as [|issue issues IH]; intros v; [split; [apply extends_refl | reflexivity]|].
  cbn [foldl]. destruct (utime _).
  - destruct (IH (add_warning ("Failed to update timestamp for " +:+ issue.2
                               +:+ ": " +:+ s) v)) as [He Hr].
    split; [|rewrite Hr; reflexivity].
    eapply extends_trans; [apply adds_warnings_extends, add_warning_adds | exact He].
  - destruct (IH (add_info ("Updated timestamp for " +:+ issue.2) v)) as [He Hr].
    split; [|rewrite Hr; reflexivity].
    eapply extends_trans; [apply add_info_extends | exact He].
Qed.

Lemma timestamp_step_extends acc item : extends acc.1 (timestamp_step acc item).1.
Proof.
  destruct acc as [v issues], item as [source_file doc_file]. cbn [timestamp_step fst].
  destruct (negb (path_exists source_file)); [cbn; auto with checks|].
  destruct (negb (path_exists _)); [cbn; auto with checks|].
  destruct (time_diff_negative _ _);
    [cbn [fst]; destruct (_ || _); auto with checks|].
  destruct (time_diff_under_3600 _ _); cbn; auto with checks.
Qed.

Lemma timestamp_loop_extends items acc :
  extends acc.1 (foldl timestamp_step acc items).1.
Proof.
  revert acc. induction items as [|item items IH]; intros acc; [apply extends_refl|].
  cbn [foldl]. eapply extends_trans; [apply timestamp_step_extends | apply IH].
Qed.

Lemma validate_timestamps_extends v : extends v (validate_timestamps v).
Proof.
  unfold validate_timestamps.
  pose proof (timestamp_loop_extends source_to_doc_mapping (v, [])) as H.
  destruct (foldl timestamp_step (v, []) source_to_doc_mapping) as [v' issues].
  cbn [fst] in H. destruct (update_timestamps v'); [|exact H].
  destruct (errors v') eqn:E; [|exact H].
  eapply extends_trans; [exact H|].
  apply update_documentation_timestamps_errors.
Qed.

(** X7.  No check takes a message back: the validator [validate_all] returns
    has the directory and the flags it started with, and its errors,
    warnings and info messages start with those it started with. *)
Theorem validate_all_keeps_messages v : extends v (validate_all v).1.
Proof.
  unfold validate_all. cbn [fst].
  eapply extends_trans; [apply check_required_files_extends|].
  eapply extends_trans; [apply validate_cross_references_extends|].
  eapply extends_trans; [apply validate_markdown_links_extends|].
  eapply extends_trans;
    [apply adds_warnings_extends, validate_docstring_standards_adds|].
  destruct (check_timestamps _);
    [apply validate_timestamps_extends | apply extends_refl].
Qed.

(** *** Which findings fail a run *)

Lemma extends_In_errors v v' msg : extends v v' -> In msg (errors v) -> In msg (errors v').
Proof.
  intros (_ & _ & _ & _ & [k Hk] & _) Hin. rewrite Hk. apply in_or_app. auto.
Qed.

Lemma validate_all_after_required v :
  extends (check_required_files v) (validate_all v).1.
Proof.
  unfold validate_all. cbn [fst].
  eapply extends_trans; [apply validate_cross_references_extends|].
  eapply extends_trans; [apply validate_markdown_links_extends|].
  eapply extends_trans;
    [apply adds_warnings_extends, validate_docstring_standards_adds|].
  destruct (check_timestamps _);
    [apply validate_timestamps_extends | apply extends_refl].
Qed.

Lemma validate_all_after_cross_references v :
  extends (validate_cross_references (check_required_files v)) (validate_all v).1.
Proof.
  unfold validate_all. cbn [fst].
  eapply extends_trans; [apply validate_markdown_links_extends|].
  eapply extends_trans;
    [apply adds_warnings_extends, validate_docstring_standards_adds|].
  destruct (check_timestamps _);
    [apply validate_timestamps_extends | apply extends_refl].
Qed.

Lemma errors_fail v msg : In msg (errors (validate_all v).1) -> (validate_all v).2 = false.
Proof.
  intros Hin. destruct ((validate_all v).2) eqn:E; [|reflexivity].
  apply validate_all_result in E. rewrite E in Hin. destruct Hin.
Qed.

Lemma check_required_loop l v v0 :
  docs_dir v = docs_dir v0 ->
  let step := fun v file_path =>
                if negb (path_exists (joinpath (docs_dir v) file_path))
                then add_error ("Missing required file: " +:+ file_path) v
                else v in
  docs_dir (foldl step v l) = docs_dir v0 /\
  errors (foldl step v l) =
  errors v ++ ((fun f => "Missing required file: " +:+ f)
               <$> List.filter (fun f => negb (path_exists (joinpath (docs_dir v0) f))) l).
Proof.
  intros Hd step. revert v Hd. induction l as [|f l IH]; intros v Hd.
  - cbn. rewrite app_nil_r. auto.
  - cbn [foldl List.filter]. unfold step at 2 4. rewrite Hd.
    destruct (negb (path_exists (joinpath (docs_dir v0) f))).
    + destruct (IH (add_error ("Missing required file: " +:+ f) v) Hd) as [H1 H2].
      split; [exact H1|]. rewrite H2. cbn [add_error errors fmap list_fmap].
      rewrite <- app_assoc. reflexivity.
    + apply IH, Hd.
Qed.

(** X8.  A missing required file always fails the run: the file is named in
    the errors [validate_all] ends with, [validate_all] returns [False],
    and [main] exits with status 1. *)
Theorem missing_required_file_fails args file_path :
  In file_path (required_files ++ required_service_files) ->
  path_exists (joinpath (arg_docs_dir args) file_path) = false ->
  In ("Missing required file: " +:+ file_path)
     (errors (validate_all (new_validator args)).1)
  /\ (validate_all (new_validator args)).2 = false
  /\ main args = 1%Z.
Proof.
  intros Hin Hmiss. set (v := new_validator args).
  assert (Hmsg : In ("Missing required file: " +:+ file_path)
                    (errors (validate_all v).1)).
  { apply (extends_In_errors _ _ _ (validate_all_after_required v)).
    unfold check_required_files.
    destruct (check_required_loop (required_files ++ required_service_files)
                v v eq_refl) as [_ ->].
    apply in_or_app. right. apply in_map_iff. exists file_path.
    split; [reflexivity|]. apply filter_In. split; [exact Hin|].
    cbn [v new_validator docs_dir]. rewrite Hmiss. reflexivity. }
  split; [exact Hmsg|]. pose proof (errors_fail _ _ Hmsg) as Hf.
  split; [exact Hf|]. unfold main. fold v.
  destruct (negb (path_exists _)); [reflexivity|].
  destruct (_ && _); [reflexivity|].
  destruct (validate_all v) as [v' ok]. cbn [snd] in Hf. subst ok. reflexivity.
Qed.

(** The valid targets [validate_cross_references] collects. *)
Definition all_valid_targets (v : DocumentationValidator) : gset string :=
  foldl (fun s md_file => s ∪ targets_of v md_file) ∅ (rglob (docs_dir v) "*.md").

Lemma validate_cross_references_unfold v :
  validate_cross_references v =
  foldl (fun v' md_file => check_file_references md_file (all_valid_targets v) v')
        v (rglob (docs_dir v) "*.md").
Proof. reflexivity. Qed.

Lemma elem_of_targets_union v l s x :
  x ∈ foldl (fun s md_file => s ∪ targets_of v md_file) s l <->
  x ∈ s \/ exists md_file, In md_file l /\ x ∈ targets_of v md_file.
Proof.
  revert s. induction l as [|md l IH]; intros s; cbn [foldl].
  - split; [auto | intros [H|(md & [] & _)]; exact H].
  - rewrite IH, elem_of_union. split.
    + intros [[H|H]|(md' & Hin & H)].
      * left; exact H.
      * right; exists md; split; [left; reflexivity | exact H].
      * right; exists md'; split; [right; exact Hin | exact H].
    + intros [H|(md' & [<-|Hin] & H)].
      * left; left; exact H.
      * left; right; exact H.
      * right; exists md'; split; assumption.
Qed.

(** X9.  A link to a markdown file that is there is valid from every file,
    whether it gives the file's path from the documentation directory,
    that path without the suffix, the bare file name or the bare stem. *)
Theorem existing_markdown_file_is_a_valid_target v md_file target source_file :
  In md_file (rglob (docs_dir v) "*.md") ->
  (let rel_path := relative_to md_file (docs_dir v) in
   target = rel_path \/ target = with_suffix_empty rel_path \/
   target = name rel_path \/ target = name (with_suffix_empty rel_path)) ->
  is_valid_target v target source_file (all_valid_targets v) = true.
Proof using Type.
  intros Hin Ht. cbv zeta in Ht.
  assert (H : target ∈ all_valid_targets v).
  { unfold all_valid_targets. apply elem_of_targets_union. right.
    exists md_file. split; [exact Hin|]. unfold targets_of.
    rewrite !elem_of_union, !elem_of_singleton.
    destruct Ht as [->|[->|[->| ->]]]; auto. }
  unfold is_valid_target. rewrite (bool_decide_eq_true_2 _ H). reflexivity.
Qed.

(** X10.  More documentation never breaks a reference: a target valid for a
    set of valid targets is valid for every larger set. *)
Theorem is_valid_target_monotone v target source_file (vt vt' : gset string) :
  vt ⊆ vt' ->
  is_valid_target v target source_file vt = true ->
  is_valid_target v target source_file vt' = true.
Proof using Type.
  intros Hsub. unfold is_valid_target.
  repeat case_bool_decide;
    destruct (startswith "../" target);
    destruct (negb (String.eqb (relative_to (parent source_file) (docs_dir v)) "."));
    destruct (negb (endswith ".md" target));
    destruct (String.eqb target "services/index.md");
    cbn [andb]; try reflexivity; try discriminate;
    intros _; exfalso;
    match goal with
    | Hn : ?x ∉ vt', Hi : ?x ∈ vt |- _ => apply Hn, Hsub, Hi
    end.
Qed.

Lemma check_links_external file_path valid_targets matches v :
  Forall (fun m => is_external m.2 = true) matches ->
  check_links file_path valid_targets matches v = v.
Proof.
  intros H. revert v. induction H as [|[text target] ms Hm _ IH]; intros v.
  - reflexivity.
  - unfold check_links. cbn [foldl check_link]. cbn [snd] in Hm. rewrite Hm.
    apply IH.
Qed.

(** X11.  Links out of the documentation are not checked: a file whose links
    all begin with [http://], [https://], [mailto:] or [#] leaves the
    validator as it was, whatever the valid targets. *)
Theorem external_links_are_not_checked file_path valid_targets text v :
  read_text file_path = Content text ->
  Forall (fun m => is_external m.2 = true) (findall_links text) ->
  check_file_references file_path valid_targets v = v.
Proof.
  intros Hr H. unfold check_file_references. rewrite Hr.
  apply check_links_external, H.
Qed.

Lemma check_file_references_docs_dir file_path valid_targets v :
  docs_dir (check_file_references file_path valid_targets v) = docs_dir v.
Proof. apply (check_file_references_extends file_path valid_targets v). Qed.

Lemma cross_reference_loop valid_targets l v v0 md_file text m :
  docs_dir v = docs_dir v0 ->
  In md_file l -> read_text md_file = Content text ->
  In m (findall_links text) ->
  reported v0 md_file valid_targets m = true ->
  In (invalid_reference_message v0 md_file m.1 m.2)
     (errors (foldl (fun v' f => check_file_references f valid_targets v') v l)).
Proof.
  intros Hd Hin Hr Hm Hrep. revert v Hd Hin.
  induction l as [|f l IH]; intros v Hd Hin; [destruct Hin|].
  cbn [foldl]. destruct Hin as [->|Hin].
  - eapply extends_In_errors.
    + apply foldl_extends. intros; apply check_file_references_extends.
    + unfold check_file_references. rewrite Hr.
      rewrite (check_links_errors _ _ _ v0 v Hd). cbn [errors].
      apply in_or_app. right. apply in_map_iff. exists m.
      split; [reflexivity|]. apply filter_In. auto.
  - apply IH; [|exact Hin]. rewrite check_file_references_docs_dir. exact Hd.
Qed.

(** X12.  A broken link always fails the run: when a markdown file under the
    documentation directory can be read and one of its links is neither
    external nor valid for the targets collected, the link is named in the
    errors [validate_all] ends with, and [validate_all] returns [False]. *)
Theorem broken_link_fails v md_file text m :
  In md_file (rglob (docs_dir v) "*.md") ->
  read_text md_file = Content text ->
  In m (findall_links text) ->
  reported v md_file (all_valid_targets v) m = true ->
  In (invalid_reference_message v md_file m.1 m.2) (errors (validate_all v).1)
  /\ (validate_all v).2 = false.
Proof.
  intros Hin Hr Hm Hrep.
  assert (Hd : docs_dir (check_required_files v) = docs_dir v)
    by apply (check_required_files_extends v).
  assert (Hmsg : In (invalid_reference_message v md_file m.1 m.2)
                    (errors (validate_all v).1)).
  { apply (extends_In_errors _ _ _ (validate_all_after_cross_references v)).
    rewrite validate_cross_references_unfold.
    assert (Ht : all_valid_targets (check_required_files v) = all_valid_targets v).
    { unfold all_valid_targets, targets_of. rewrite Hd. reflexivity. }
    rewrite Ht, Hd.
    apply (cross_reference_loop _ _ _ v md_file text m Hd Hin Hr Hm Hrep). }
  split; [exact Hmsg | exact (errors_fail _ _ Hmsg)].
Qed.

(** *** Anchors *)

Lemma contains_hash_cons c s :
  contains "#" (String c s) = false -> c <> "#"%char /\ contains "#" s = false.
Proof.
  cbn [contains String.prefix]. intros H.
  apply orb_false_iff in H as [Hp Hc]. split; [|exact Hc].
  intros ->. destruct (Ascii.ascii_dec "#" "#"); [|congruence].
  destruct s; discriminate.
Qed.

Lemma split_hash_head s rest :
  contains "#" s = false ->
  hd "" (split "#"%char (s +:+ String "#" rest)) = s
  /\ hd "" (split "#"%char s) = s.
Proof.
  induction s as [|c s IH]; intros H.
  - split; reflexivity.
  - apply contains_hash_cons in H as [Hc Hs]. destruct (IH Hs) as [IH1 IH2].
    change (String c s +:+ String "#" rest) with (String c (s +:+ String "#" rest)).
    cbn [split]. apply Ascii.eqb_neq in Hc. rewrite Hc.
    destruct (split "#" (s +:+ String "#" rest)) as [|x l];
      destruct (split "#" s) as [|y l']; cbn [hd] in *; subst; split; reflexivity.
Qed.

(** X13.  The anchor of a link is not checked: a target followed by [#] and
    any anchor is cleaned to what the target alone is cleaned to, so the
    two are valid or invalid together. *)
Theorem anchor_is_ignored v target anchor source_file valid_targets :
  contains "#" target = false ->
  clean_target (target +:+ String "#" anchor) = clean_target target
  /\ is_valid_target v (clean_target (target +:+ String "#" anchor))
       source_file valid_targets
     = is_valid_target v (clean_target target) source_file valid_targets.
Proof.
  intros H. destruct (split_hash_head target anchor H) as [H1 H2].
  assert (E : clean_target (target +:+ String "#" anchor) = clean_target target)
    by (unfold clean_target; rewrite H1, H2; reflexivity).
  split; [exact E | rewrite E; reflexivity].
Qed.

(** *** Timestamps *)

(** The items of the mapping for which [validate_timestamps] records an
    error: the source is there, and the documentation is missing, or older
    than the source and either [strict_timestamps] is set or it is older
    by more than seven days. *)
Definition timestamp_error (v : DocumentationValidator) (item : string * string) : bool :=
  let doc_path := joinpath (docs_dir v) item.2 in
  path_exists item.1
  && (negb (path_exists doc_path)
      || (time_diff_negative item.1 doc_path
          && (strict_timestamps v || days_old_over_7 item.1 doc_path))).

Lemma timestamp_loop_errors v0 items acc :
  docs_dir acc.1 = docs_dir v0 -> strict_timestamps acc.1 = strict_timestamps v0 ->
  length (errors (foldl timestamp_step acc items).1)
  = length (errors acc.1) + length (List.filter (timestamp_error v0) items).
Proof.
  revert acc. induction items as [|item items IH]; intros acc Hd Hs.
  - cbn. lia.
  - cbn [foldl List.filter].
    pose proof (timestamp_step_extends acc item) as (Hd' & _ & Hs' & _).
    rewrite IH by congruence. clear IH.
    destruct acc as [v issues], item as [source_file doc_file].
    cbn [fst] in *. unfold timestamp_error. cbn [fst snd timestamp_step].
    rewrite <- Hd, <- Hs.
    destruct (path_exists source_file); cbn [negb andb]; [|cbn; lia].
    destruct (path_exists (joinpath (docs_dir v) doc_file)); cbn [negb orb];
      [|cbn [fst add_error errors length]; rewrite length_app; cbn; lia].
    destruct (time_diff_negative _ _); cbn [andb].
    + cbn [fst]. destruct (strict_timestamps v || days_old_over_7 _ _);
        cbn [add_error add_warning errors length]; rewrite ?length_app; cbn; lia.
    + destruct (time_diff_under_3600 _ _); cbn; lia.
Qed.

(** X14.  [validate_timestamps] adds one error for each mapped source file that
    exists and whose documentation is missing or outdated, and no other;
    a source file that is missing, and a failure to update a timestamp,
    are warnings only. *)
Theorem timestamp_errors_counted v :
  length (errors (validate_timestamps v))
  = length (errors v)
    + length (List.filter (timestamp_error v) source_to_doc_mapping).
Proof.
  unfold validate_timestamps.
  pose proof (timestamp_loop_errors v source_to_doc_mapping (v, []) eq_refl eq_refl) as H.
  destruct (foldl timestamp_step (v, []) source_to_doc_mapping) as [v' issues].
  cbn [fst] in H. destruct (update_timestamps v'); [|exact H].
  destruct (errors v') eqn:E; [|rewrite E; exact H].
  rewrite (proj2 (update_documentation_timestamps_errors issues v')), E.
  exact H.
Qed.

(** *** Line numbers *)

Lemma adds_warnings_In v v' msg :
  adds_warnings v v' -> In msg (warnings v) -> In msg (warnings v').
Proof.
  intros (_ & _ & _ & _ & _ & [k Hk] & _) Hin. rewrite Hk. apply in_or_app. auto.
Qed.

(** The body of the loop of [check_markdown_issues]. *)
Definition markdown_line_step (file_path : string) (v : DocumentationValidator)
    (il : nat * string) : DocumentationValidator :=
  let '(i, line) := il in
  let rel := relative_to file_path (docs_dir v) in
  let v :=
    if contains "[](" line
    then add_warning ("Empty link text in " +:+ rel +:+ ":" +:+ pretty i) v
    else v in
  if contains "[" line && contains "](" line && negb (search_link line)
  then add_warning ("Potential malformed link in " +:+ rel +:+ ":"
                    +:+ pretty i +:+ ": " +:+ strip line) v
  else v.

Lemma check_markdown_issues_unfold content file_path v :
  check_markdown_issues content file_path v =
  foldl (markdown_line_step file_path) v
    (zip (seq 1 (length (split "010"%char content))) (split "010"%char content)).
Proof. reflexivity. Qed.

Lemma markdown_line_step_adds file_path v il :
  adds_warnings v (markdown_line_step file_path v il).
Proof.
  destruct il as [i line]. unfold markdown_line_step.
  destruct (contains "[](" line).
  - eapply adds_warnings_trans; [apply add_warning_adds|].
    destruct (_ && _); auto with checks.
  - destruct (_ && _); auto with checks.
Qed.

Lemma markdown_loop_empty_link file_path l v v0 i line :
  docs_dir v = docs_dir v0 -> In (i, line) l -> contains "[](" line = true ->
  In ("Empty link text in " +:+ relative_to file_path (docs_dir v0) +:+ ":" +:+ pretty i)
     (warnings (foldl (markdown_line_step file_path) v l)).
Proof.
  intros Hd Hin Hc. revert v Hd Hin.
  induction l as [|il l IH]; intros v Hd Hin; [destruct Hin|].
  cbn [foldl]. destruct Hin as [->|Hin].
  - eapply adds_warnings_In;
      [apply foldl_adds_warnings; intros; apply markdown_line_step_adds|].
    unfold markdown_line_step. rewrite Hc, Hd.
    match goal with
    | |- In ?msg (warnings (if ?b then add_warning ?m2 ?w else ?w)) =>
        apply (adds_warnings_In (add_warning msg v));
          [destruct b; auto with checks|]
    end.
    cbn [add_warning warnings]. apply in_or_app. right. left. reflexivity.
  - apply IH; [|exact Hin].
    rewrite (proj1 (markdown_line_step_adds file_path v il)). exact Hd.
Qed.

(** X16.  Lines are numbered from 1: a line that holds [[](] is reported as an
    empty link text under its position in the file, counted from one. *)
Theorem empty_link_text_is_reported_with_its_line content file_path v k line :
  split "010"%char content !! k = Some line ->
  contains "[](" line = true ->
  In ("Empty link text in " +:+ relative_to file_path (docs_dir v) +:+ ":"
      +:+ pretty (S k))
     (warnings (check_markdown_issues content file_path v)).
Proof.
  intros Hk Hc. rewrite check_markdown_issues_unfold.
  apply (markdown_loop_empty_link file_path _ v v (S k) line eq_refl); [|exact Hc].
  apply list_elem_of_In, list_elem_of_lookup. exists k.
  apply lookup_zip_with_Some. exists (S k), line. split; [reflexivity|].
  split; [|exact Hk].
  apply lookup_seq. split; [lia|]. apply lookup_lt_Some in Hk. exact Hk.
Qed.

End Environment.

Lemma foldl_ext {A B} (f g : A -> B -> A) l a :
  (forall a x, In x l -> f a x = g a x) -> foldl f a l = foldl g a l.
Proof.
  revert a. induction l as [|x l IH]; intros a H; [reflexivity|].
  cbn [foldl]. rewrite (H a x) by (left; reflexivity).
  apply IH. intros a' x' Hin. apply H. right. exact Hin.
Qed.

(** X17.  What the files under [node_modules] or [.git] hold does not matter:
    two file systems that agree on every other file give the docstring
    check the same outcome. *)
Theorem skipped_files_are_not_read
    (rglob : string -> string -> list string)
    (read_text read_text' : string -> ReadResult)
    (python_missing_docstring typescript_missing_jsdoc : string -> list string) v :
  (forall f, skipped f = false -> read_text f = read_text' f) ->
  validate_docstring_standards rglob read_text python_missing_docstring
    typescript_missing_jsdoc v
  = validate_docstring_standards rglob read_text' python_missing_docstring
      typescript_missing_jsdoc v.
Proof.
  intros H. unfold validate_docstring_standards. cbv zeta.
  rewrite (foldl_ext
             (fun v py_file => if skipped py_file then v
                               else check_python_docstrings read_text
                                      python_missing_docstring py_file v)
             (fun v py_file => if skipped py_file then v
                               else check_python_docstrings read_text'
                                      python_missing_docstring py_file v)).
  - apply foldl_ext. intros v' f _.
    destruct (skipped f) eqn:E; [reflexivity|].
    unfold check_typescript_docstrings. rewrite (H f E). reflexivity.
  - intros v' f _. destruct (skipped f) eqn:E; [reflexivity|].
    unfold check_python_docstrings. rewrite (H f E). reflexivity.
Qed.

(** *** A run on a small tree

    One markdown file, [docs/index.md], whose text and whose links are
    given; every path exists, no source file lacks a docstring, and the
    documentation is newer than the sources. *)

Definition ex_joinpath (a b : string) : string := a +:+ "/" +:+ b.

Definition ex_relative_to (p base : string) : string :=
  if String.eqb p base then "."
  else String.substring (String.length base + 1)
         (String.length p - String.length base - 1) p.

Definition ex_name (p : string) : string := List.last (split "/"%char p) "".

Definition ex_parent (p : string) : string :=
  String.substring 0 (String.length p - String.length (ex_name p) - 1) p.

Definition ex_with_suffix_empty (p : string) : string :=
  if endswith ".md" p then String.substring 0 (String.length p - 3) p else p.

Definition ex_rglob (d pattern : string) : list string :=
  if String.eqb pattern "*.md" then [ex_joinpath d "index.md"] else [].

Definition ex_validate_all (text : string) (links : list (string * string)) :=
  validate_all (fun _ => true) ex_rglob (fun _ => Content text) ex_joinpath
    ex_relative_to ex_with_suffix_empty ex_name ex_parent (fun _ => links)
    (fun _ => true) (fun _ => []) (fun _ => [])
    (fun _ _ => false) (fun _ _ => false) (fun _ _ => false) (fun _ _ => "0.0")
    (fun _ => None).

Definition ex_main (text : string) (links : list (string * string)) :=
  main (fun _ => true) ex_rglob (fun _ => Content text) ex_joinpath
    ex_relative_to ex_with_suffix_empty ex_name ex_parent (fun _ => links)
    (fun _ => true) (fun _ => []) (fun _ => [])
    (fun _ _ => false) (fun _ _ => false) (fun _ _ => false) (fun _ _ => "0.0")
    (fun _ => None).

Definition ex_text : string :=
  "See [the agent](../agent/myagent.py#L1) and [setup](setup.md).".

Definition ex_links : list (string * string) :=
  [("the agent", "../agent/myagent.py#L1"); ("setup", "setup.md")].

Definition ex_args (strict : bool) : Args := mkArgs "docs" strict true false true.

(** The link into the parent directory passes; the link to a file that is
    not there is the one error, and the run fails. *)
Example broken_link_reported :
  errors (ex_validate_all ex_text ex_links (new_validator (ex_args false))).1
  = ["Invalid reference in index.md: [setup](setup.md)"]
  /\ ex_main ex_text ex_links (ex_args false) = 1%Z.
Proof. split; vm_compute; reflexivity. Qed.

(** An empty link text is a warning: the run passes, and fails under
    [--strict]. *)
Example warning_fails_only_when_strict :
  let text := "[](../README.md)" in
  let links : list (string * string) := [] in
  warnings (ex_validate_all text links (new_validator (ex_args false))).1
  = ["Empty link text in index.md:1"]
  /\ ex_main text links (ex_args false) = 0%Z
  /\ ex_main text links (ex_args true) = 1%Z.
Proof. repeat split; vm_compute; reflexivity. Qed.

Example mapping_names_livekit_once :
  source_to_doc_mapping !! 6 = Some ("livekit/Dockerfile", "services/livekit.md")
  /\ length source_to_doc_mapping = 15.
Proof. split; reflexivity. Qed.

Lemma validation_succeeds_iff_witness :
  let args := ex_args true in
  let result := ex_validate_all "[](../README.md)" [] (new_validator args) in
  arg_update_timestamps args = true /\ arg_check_timestamps args = true /\
  (result.2 = true /\ ex_main "[](../README.md)" [] args = 0%Z <->
   errors result.1 = [] /\ (arg_strict args = true -> warnings result.1 = []))
  /\ (arg_strict args = false -> errors result.1 = [] ->
      ex_main "[](../README.md)" [] args = 0%Z).
Proof.
  split; [reflexivity|]. split; [reflexivity|].
  apply (validation_succeeds_iff (fun _ => true) ex_rglob
           (fun _ => Content "[](../README.md)") ex_joinpath ex_relative_to
           ex_with_suffix_empty ex_name ex_parent (fun _ => [])
           (fun _ => true) (fun _ => []) (fun _ => [])
           (fun _ _ => false) (fun _ _ => false) (fun _ _ => false)
           (fun _ _ => "0.0") (fun _ => None) (ex_args true)).
  - reflexivity.
  - intros _; reflexivity.
Defined.

Lemma parent_links_are_never_reported_witness :
  startswith "../" "../agent/myagent.py" = true /\
  is_valid_target ex_joinpath ex_relative_to ex_parent
    (new_validator (ex_args false)) "../agent/myagent.py" "docs/index.md" ∅
  = true.
Proof.
  split; [reflexivity|].
  apply (parent_links_are_never_reported ex_joinpath ex_relative_to ex_parent
           (new_validator (ex_args false)) "docs/index.md" ∅ ex_links).
  reflexivity.
Defined.

(** *** More runs on the small tree *)

Lemma markdown_check_only_warns_witness :
  let v := new_validator (ex_args false) in
  (forall md_file, In md_file (ex_rglob (docs_dir v) "*.md") ->
                   exists text, (fun _ : string => Content "[](x)") md_file = Content text) /\
  adds_warnings v
    (validate_markdown_links ex_rglob (fun _ => Content "[](x)") ex_relative_to
       (fun _ => true) v).
Proof.
  split; [intros md_file _; eexists; reflexivity|].
  apply (markdown_check_only_warns ex_rglob (fun _ => Content "[](x)")
           ex_relative_to (fun _ => true) (new_validator (ex_args false))).
  intros md_file _; eexists; reflexivity.
Defined.

(** Every path is there but the lessons learned. *)
Definition ex_path_exists (p : string) : bool :=
  negb (String.eqb p "docs/lessons-learned.md").

Lemma missing_required_file_fails_witness :
  In "lessons-learned.md" (required_files ++ required_service_files) /\
  ex_path_exists (ex_joinpath (arg_docs_dir (ex_args false)) "lessons-learned.md") = false /\
  main ex_path_exists ex_rglob (fun _ => Content "") ex_joinpath
    ex_relative_to ex_with_suffix_empty ex_name ex_parent (fun _ => [])
    (fun _ => true) (fun _ => []) (fun _ => [])
    (fun _ _ => false) (fun _ _ => false) (fun _ _ => false) (fun _ _ => "0.0")
    (fun _ => None) (ex_args false) = 1%Z.
Proof.
  split; [do 4 right; left; reflexivity|]. split; [reflexivity|].
  apply (missing_required_file_fails ex_path_exists ex_rglob (fun _ => Content "")
           ex_joinpath ex_relative_to ex_with_suffix_empty ex_name ex_parent
           (fun _ => []) (fun _ => true) (fun _ => []) (fun _ => [])
           (fun _ _ => false) (fun _ _ => false) (fun _ _ => false)
           (fun _ _ => "0.0") (fun _ => None) (ex_args false) "lessons-learned.md").
  - do 4 right; left; reflexivity.
  - reflexivity.
Defined.

Lemma existing_markdown_file_is_a_valid_target_witness :
  let v := new_validator (ex_args false) in
  In "docs/index.md" (ex_rglob (docs_dir v) "*.md") /\
  "index" = ex_name (ex_with_suffix_empty (ex_relative_to "docs/index.md" (docs_dir v))) /\
  is_valid_target ex_joinpath ex_relative_to ex_parent v "index" "docs/index.md"
    (all_valid_targets ex_rglob ex_relative_to ex_with_suffix_empty ex_name v)
  = true.
Proof.
  split; [left; reflexivity|]. split; [reflexivity|].
  apply (existing_markdown_file_is_a_valid_target ex_rglob ex_joinpath
           ex_relative_to ex_with_suffix_empty ex_name ex_parent
           (new_validator (ex_args false)) "docs/index.md" "index" "docs/index.md").
  - left; reflexivity.
  - right; right; right; reflexivity.
Defined.

Lemma is_valid_target_monotone_witness :
  let v := new_validator (ex_args false) in
  ({["setup.md"]} : gset string) ⊆ {["setup.md"; "index.md"]} /\
  is_valid_target ex_joinpath ex_relative_to ex_parent v "setup" "docs/index.md"
    {["setup.md"]} = true /\
  is_valid_target ex_joinpath ex_relative_to ex_parent v "setup" "docs/index.md"
    {["setup.md"; "index.md"]} = true.
Proof.
  split; [decide_by_compute|]. split; [reflexivity|].
  apply (is_valid_target_monotone ex_joinpath ex_relative_to ex_parent
           (new_validator (ex_args false)) "setup" "docs/index.md"
           {["setup.md"]} {["setup.md"; "index.md"]}).
  - decide_by_compute.
  - reflexivity.
Defined.

Definition ex_external_links : list (string * string) :=
  [("site", "https://example.org/a.md"); ("top", "#top");
   ("mail", "mailto:docs@example.org")].

Lemma external_links_are_not_checked_witness :
  let v := new_validator (ex_args false) in
  Forall (fun m : string * string => is_external m.2 = true) ex_external_links /\
  check_file_references (fun _ => Content "text") ex_joinpath ex_relative_to
    ex_parent (fun _ => ex_external_links) "docs/index.md" ∅ v = v.
Proof.
  split; [repeat constructor|].
  apply (external_links_are_not_checked (fun _ => Content "text") ex_joinpath
           ex_relative_to ex_parent (fun _ => ex_external_links)
           "docs/index.md" ∅ "text" (new_validator (ex_args false))).
  - reflexivity.
  - repeat constructor.
Defined.

Lemma broken_link_fails_witness :
  let v := new_validator (ex_args false) in
  In ("setup", "setup.md") ex_links /\
  reported ex_joinpath ex_relative_to ex_parent v "docs/index.md"
    (all_valid_targets ex_rglob ex_relative_to ex_with_suffix_empty ex_name v)
    ("setup", "setup.md") = true /\
  In (invalid_reference_message ex_relative_to v "docs/index.md" "setup" "setup.md")
     (errors (ex_validate_all ex_text ex_links v).1) /\
  (ex_validate_all ex_text ex_links v).2 = false.
Proof.
  split; [right; left; reflexivity|]. split; [vm_compute; reflexivity|].
  apply (broken_link_fails (fun _ => true) ex_rglob (fun _ => Content ex_text)
           ex_joinpath ex_relative_to ex_with_suffix_empty ex_name ex_parent
           (fun _ => ex_links) (fun _ => true) (fun _ => []) (fun _ => [])
           (fun _ _ => false) (fun _ _ => false) (fun _ _ => false)
           (fun _ _ => "0.0") (fun _ => None) (new_validator (ex_args false))
           "docs/index.md" ex_text ("setup", "setup.md")).
  - left; reflexivity.
  - reflexivity.
  - right; left; reflexivity.
  - vm_compute; reflexivity.
Defined.

Lemma anchor_is_ignored_witness :
  contains "#" "guide.md" = false /\
  clean_target "guide.md#setup" = clean_target "guide.md".
Proof.
  split; [reflexivity|].
  apply (anchor_is_ignored ex_joinpath ex_relative_to ex_parent
           (new_validator (ex_args false)) "guide.md" "setup" "docs/index.md" ∅).
  reflexivity.
Defined.

(** A title line, then a line with an empty link text. *)
Definition ex_two_lines : string :=
  "# Title" +:+ String "010"%char "See [](x).".

Lemma empty_link_text_is_reported_with_its_line_witness :
  let v := new_validator (ex_args false) in
  split "010"%char ex_two_lines !! 1 = Some "See [](x)." /\
  In "Empty link text in index.md:2"
     (warnings (check_markdown_issues ex_relative_to (fun _ => true)
                  ex_two_lines "docs/index.md" v)).
Proof.
  split; [reflexivity|].
  apply (empty_link_text_is_reported_with_its_line ex_relative_to (fun _ => true)
           ex_two_lines "docs/index.md" (new_validator (ex_args false)) 1
           "See [](x)."); reflexivity.
Defined.

Lemma skipped_files_are_not_read_witness :
  let read_text := fun f : string =>
    if String.eqb f "node_modules/pkg/a.py" then Content "def f() -> int:" else Content "" in
  let read_text' := fun f : string =>
    if String.eqb f "node_modules/pkg/a.py" then ReadError "gone" else Content "" in
  let rglob := fun (_ pattern : string) =>
    if String.eqb pattern "*.py" then ["node_modules/pkg/a.py"; "agent/myagent.py"] else [] in
  let missing := fun text : string => if String.eqb text "" then [] else ["f"] in
  validate_docstring_standards rglob read_text missing (fun _ => [])
    (new_validator (ex_args false))
  = validate_docstring_standards rglob read_text' missing (fun _ => [])
      (new_validator (ex_args false)).
Proof.
  apply (skipped_files_are_not_read
           (fun (_ pattern : string) =>
              if String.eqb pattern "*.py"
              then ["node_modules/pkg/a.py"; "agent/myagent.py"] else [])
           (fun f : string =>
              if String.eqb f "node_modules/pkg/a.py"
              then Content "def f() -> int:" else Content "")
           (fun f : string =>
              if String.eqb f "node_modules/pkg/a.py"
              then ReadError "gone" else Content "")
           (fun text : string => if String.eqb text "" then [] else ["f"])
           (fun _ => []) (new_validator (ex_args false))).
  intros f Hf. destruct (String.eqb_spec f "node_modules/pkg/a.py") as [->|_];
    [discriminate Hf | reflexivity].
Defined.

End ValidateDocs.

(** ** scripts/fix-docs-references.py *)

Module FixDocs.

(** [s[n:]] *)
Fixpoint string_drop (n : nat) (s : string) : string :=
  match n, s with
  | O, _ => s
  | S n', String _ s' => string_drop n' s'
  | S _, EmptyString => EmptyString
  end.

Lemma string_drop_length n s : String.length (string_drop n s) <= String.length s.
Proof.
  revert s; induction n as [|n IH]; intros [|c s]; simpl; try lia.
  specialize (IH s); lia.
Qed.

(** [s.replace("", new)]: [new] before every character and at the end. *)
Fixpoint replace_empty (new s : string) : string :=
  match s with
  | EmptyString => new
  | String c s' => new +:+ String c (replace_empty new s')
  end.

(** [s.replace(old, new)] for a non-empty [old]: the occurrences of [old]
    found from left to right, without overlap. *)
Equations? replace_nonempty (old new s : string) : string
    by wf (String.length s) lt :=
  replace_nonempty old new EmptyString := EmptyString;
  replace_nonempty old new (String c s') with String.prefix old (String c s') => {
    | true := new +:+ replace_nonempty old new
                        (string_drop (Nat.pred (String.length old)) s');
    | false := String c (replace_nonempty old new s') }.
Proof.
  all: pose proof (string_drop_length (Nat.pred (String.length old)) s');
    simpl; lia.
Qed.

(** [s.replace(old, new)] *)
Definition replace (old new s : string) : string :=
  match old with
  | EmptyString => replace_empty new s
  | _ => replace_nonempty old new s
  end.

Example replace_twice : replace "ab" "X" "abcabab-a" = "XcXX-a".
Proof. reflexivity. Qed.

Example replace_no_overlap : replace "aa" "b" "aaa" = "ba".
Proof. reflexivity. Qed.

Example replace_empty_old : replace "" "-" "abc" = "-a-b-c-".
Proof. reflexivity. Qed.

(** *** Replacing a string by itself, or a string that is not there *)

Lemma prefix_drop p s :
  String.prefix p s = true -> p +:+ string_drop (String.length p) s = s.
Proof.
  revert s; induction p as [|a p IH]; intros s H; [reflexivity|].
  destruct s as [|b s]; [discriminate|]. cbn [String.prefix] in H.
  destruct (Ascii.ascii_dec a b) as [->|]; [|discriminate].
  change (String b (p +:+ string_drop (String.length p) s) = String b s).
  f_equal. apply IH, H.
Qed.

Lemma replace_empty_same s : replace_empty "" s = s.
Proof. induction s as [|c s IH]; [reflexivity|]. cbn. rewrite IH. reflexivity. Qed.

Lemma replace_nonempty_same old s :
  old <> "" -> replace_nonempty old old s = s.
Proof.
  intros Hne. funelim (replace_nonempty old old s).
  - reflexivity.
  - match goal with IH : _ -> replace_nonempty _ _ _ = _ |- _ =>
      rewrite (IH Hne) end.
    match goal with E : String.prefix _ _ = true |- _ =>
      pose proof (prefix_drop _ _ E) as Hd end.
    destruct old as [|a old]; [congruence|exact Hd].
  - match goal with IH : _ -> replace_nonempty _ _ _ = _ |- _ =>
      rewrite (IH Hne) end.
    reflexivity.
Qed.

Lemma replace_same old s : replace old old s = s.
Proof.
  destruct old as [|a old];
    [apply replace_empty_same | apply replace_nonempty_same; discriminate].
Qed.

Lemma replace_nonempty_absent old new s :
  PyString.contains old s = false -> replace_nonempty old new s = s.
Proof.
  funelim (replace_nonempty old new s); intros Hc.
  - reflexivity.
  - cbn [PyString.contains] in Hc.
    match goal with E : String.prefix _ _ = true |- _ => rewrite E in Hc end.
    discriminate.
  - cbn [PyString.contains] in Hc. apply orb_false_iff in Hc as [_ Hc].
    match goal with IH : _ -> replace_nonempty _ _ _ = _ |- _ => rewrite (IH Hc) end.
    reflexivity.
Qed.

Lemma replace_absent old new s :
  PyString.contains old s = false -> replace old new s = s.
Proof.
  intros H. destruct old as [|a old]; [|apply replace_nonempty_absent, H].
  destruct s; discriminate.
Qed.

(** *** Text files

    A file holds bytes.  [read_text(encoding="utf-8")] opens it in text
    mode: the bytes are decoded by the strict UTF-8 codec and every line
    ending, [\r\n] or [\r], is handed over as [\n].
    [write_text(content, encoding="utf-8")] encodes the text and writes
    each [\n] as [os.linesep].

    A [str] is kept here as its UTF-8 encoding, so decoding is the check
    that the bytes are well formed and encoding gives the bytes back.  The
    texts the script looks for are ASCII, and no byte of a longer UTF-8
    sequence is an ASCII byte: looking for them, replacing them and
    translating line endings in the encoding is doing so in the [str]. *)

Definition CR : Ascii.ascii := "013"%char.
Definition LF : Ascii.ascii := "010"%char.

(** Well-formed UTF-8, byte by byte: [need] continuation bytes are still to
    come, the next of them between [lo] and [hi].  The bounds after the
    lead bytes E0, ED, F0 and F4 are what shuts out overlong forms,
    surrogates and code points above 10FFFF. *)
Fixpoint utf8_scan (need lo hi : nat) (data : string) : bool :=
  match data with
  | EmptyString => (need =? 0)%nat
  | String c data' =>
      let n := Ascii.nat_of_ascii c in
      match need with
      | O =>
          if (n <=? 127)%nat then utf8_scan 0 128 191 data'
          else if (194 <=? n)%nat && (n <=? 223)%nat then utf8_scan 1 128 191 data'
          else if (n =? 224)%nat then utf8_scan 2 160 191 data'
          else if (n =? 237)%nat then utf8_scan 2 128 159 data'
          else if (225 <=? n)%nat && (n <=? 239)%nat then utf8_scan 2 128 191 data'
          else if (n =? 240)%nat then utf8_scan 3 144 191 data'
          else if (241 <=? n)%nat && (n <=? 243)%nat then utf8_scan 3 128 191 data'
          else if (n =? 244)%nat then utf8_scan 3 128 143 data'
          else false
      | S need' =>
          if (lo <=? n)%nat && (n <=? hi)%nat then utf8_scan need' 128 191 data'
          else false
      end
  end.

Definition utf8_valid (data : string) : bool := utf8_scan 0 128 191 data.

(** Reading in text mode with [newline=None]: [\r\n] and [\r] become [\n]. *)
Fixpoint universal_newlines (s : string) : string :=
  match s with
  | EmptyString => EmptyString
  | String c s' =>
      if Ascii.eqb c CR then
        String LF match s' with
                  | String c' s'' =>
                      if Ascii.eqb c' LF then universal_newlines s''
                      else universal_newlines s'
                  | EmptyString => EmptyString
                  end
      else String c (universal_newlines s')
  end.

(** Writing in text mode with [newline=None]: [\n] becomes [linesep]. *)
Fixpoint newlines_out (linesep s : string) : string :=
  match s with
  | EmptyString => EmptyString
  | String c s' =>
      if Ascii.eqb c LF then linesep +:+ newlines_out linesep s'
      else String c (newlines_out linesep s')
  end.

Example read_line_endings :
  universal_newlines ("line1" +:+ String CR (String LF ("line2" +:+ String CR
                        ("line3" +:+ String LF ""))))
  = "line1" +:+ String LF ("line2" +:+ String LF ("line3" +:+ String LF "")).
Proof. reflexivity. Qed.

Example utf8_two_bytes : utf8_valid (String "195"%char (String "169"%char "")) = true.
Proof. reflexivity. Qed.

Example utf8_latin1_byte : utf8_valid (String "233"%char "t") = false.
Proof. reflexivity. Qed.

Example utf8_overlong : utf8_valid (String "192"%char (String "175"%char "")) = false.
Proof. reflexivity. Qed.

Example utf8_surrogate :
  utf8_valid (String "237"%char (String "160"%char (String "128"%char ""))) = false.
Proof. reflexivity. Qed.

Example utf8_truncated : utf8_valid (String "226"%char (String "130"%char "")) = false.
Proof. reflexivity. Qed.

(** What a path names: a regular file, with its bytes and whether it can
    be opened for reading and for writing, or a directory. *)
Inductive Node : Type :=
| File (data : string) (readable writable : bool)
| Directory.

(** What [read_text] and [write_text] raise. *)
Inductive Exc : Type :=
| FileNotFoundError (path : string)
| IsADirectoryError (path : string)
| PermissionError (path : string)
| UnicodeDecodeError (path : string).

(** The file system by path, and the lines printed. *)
Record State : Type := mkState {
  files : gmap string Node;
  stdout : list string
}.

(** A statement returns or raises, and leaves a state either way. *)
Definition M (A : Type) : Type := State -> (Exc + A) * State.

Definition ret {A} (a : A) : M A := fun st => (inr a, st).
Definition bind {A B} (m : M A) (k : A -> M B) : M B :=
  fun st => match m st with
            | (inl e, st') => (inl e, st')
            | (inr a, st') => k a st'
            end.

Definition service_files : list string :=
  ["services/agent.md"; "services/whisper.md"; "services/ollama.md";
   "services/kokoro.md"; "services/livekit.md"; "services/frontend.md"].

(** [docs_dir / file], with [docs_dir = Path("docs")]. *)
Definition docs_path (file : string) : string := "docs/" +:+ file.

(** The three [replace] calls on the content of a service file. *)
Definition fix_service_content (content : string) : string :=
  let content :=
    replace "[docs/architecture.md](../architecture.md)"
      "[docs/architecture.md](../architecture.md)" content in
  let content :=
    replace "[docs/coding-standards.md](../coding-standards.md)"
      "[docs/coding-standards.md](../coding-standards.md)" content in
  replace "[docs/development-workflow.md](../development-workflow.md)"
    "[docs/development-workflow.md](../development-workflow.md)" content.

(** The five [replace] calls on the content of the maintenance guide. *)
Definition fix_maintenance_content (content : string) : string :=
  let content :=
    replace "[`agent/myagent.py`](../agent/myagent.py:1)"
      "[`agent/myagent.py`](../../agent/myagent.py:1)" content in
  let content :=
    replace "[`docker-compose.yml`](../docker-compose.yml:44-50)"
      "[`docker-compose.yml`](../../docker-compose.yml:44-50)" content in
  let content :=
    replace "[`LocalAgent.__init__()`](../agent/myagent.py:57)"
      "[`LocalAgent.__init__()`](../../agent/myagent.py:57)" content in
  let content :=
    replace "[New Service](services/new-service.md)"
      "[New Service](services/new-service.md)" content in
  replace "[New Service](services/new-service.md)"
    "[New Service](services/agent.md)" content.

Lemma fix_service_content_same content : fix_service_content content = content.
Proof. unfold fix_service_content. rewrite !replace_same. reflexivity. Qed.

Lemma universal_newlines_without_cr data :
  PyString.contains (String CR "") data = false -> universal_newlines data = data.
Proof.
  induction data as [|c data IH]; [reflexivity|].
  cbn [PyString.contains String.prefix]. intros H.
  apply orb_false_iff in H as [Hc H].
  cbn [universal_newlines].
  destruct (Ascii.eqb_spec c CR) as [->|Hne].
  - destruct (Ascii.ascii_dec CR CR) as [_|Hn]; [|contradiction Hn; reflexivity].
    destruct data; discriminate Hc.
  - rewrite (IH H). reflexivity.
Qed.

Lemma newlines_out_lf text : newlines_out (String LF "") text = text.
Proof.
  induction text as [|c text IH]; [reflexivity|].
  cbn [newlines_out]. rewrite IH.
  destruct (Ascii.eqb_spec c LF) as [->|_]; reflexivity.
Qed.

Section Platform.

(** [os.linesep]: [\n] on POSIX, [\r\n] on Windows. *)
Context (linesep : string).

Notation "'let*' x ':=' m 'in' k" := (bind m (fun x => k))
  (at level 10, x name, m at level 100, k at level 200).

(** [path.exists()]: a file or a directory is there. *)
Definition path_exists (path : string) : M bool :=
  fun st => (inr (bool_decide (is_Some (files st !! path))), st).

(** [path.read_text(encoding="utf-8")] *)
Definition read_text (path : string) : M string :=
  fun st =>
    match files st !! path with
    | Some (File data readable _) =>
        if readable then
          if utf8_valid data then (inr (universal_newlines data), st)
          else (inl (UnicodeDecodeError path), st)
        else (inl (PermissionError path), st)
    | Some Directory => (inl (IsADirectoryError path), st)
    | None => (inl (FileNotFoundError path), st)
    end.

(** [path.write_text(text, encoding="utf-8")].  A file that is missing is
    created; the script never gets there, it writes only what it has
    read. *)
Definition write_text (path text : string) : M unit :=
  fun st =>
    match files st !! path with
    | Some (File _ readable writable) =>
        if writable then
          (inr tt, mkState (<[path := File (newlines_out linesep text) readable writable]>
                              (files st)) (stdout st))
        else (inl (PermissionError path), st)
    | Some Directory => (inl (IsADirectoryError path), st)
    | None =>
        (inr tt, mkState (<[path := File (newlines_out linesep text) true true]>
                            (files st)) (stdout st))
    end.

Definition print (line : string) : M unit :=
  fun st => (inr tt, mkState (files st) (stdout st ++ [line])).

(** [for x in l: body(x)] *)
Fixpoint for_each {A} (body : A -> M unit) (l : list A) : M unit :=
  match l with
  | [] => ret tt
  | x :: l' => let* _ := body x in for_each body l'
  end.

(** The body of the loop over the service files. *)
Definition fix_service_file (service_file : string) : M unit :=
  let file_path := docs_path service_file in
  let* found := path_exists file_path in
  if found then
    let* content := read_text file_path in
    let content := fix_service_content content in
    let* _ := write_text file_path content in
    print ("Fixed references in " +:+ service_file)
  else ret tt.

Definition fix_maintenance_guide : M unit :=
  let maintenance_file := docs_path "maintenance-guide.md" in
  let* found := path_exists maintenance_file in
  if found then
    let* content := read_text maintenance_file in
    let content := fix_maintenance_content content in
    let* _ := write_text maintenance_file content in
    print "Fixed references in maintenance-guide.md"
  else ret tt.

Definition fix_references : M unit :=
  let* _ := for_each fix_service_file service_files in
  fix_maintenance_guide.

(** The script run as a program. *)
Definition main : M unit :=
  let* _ := fix_references in
  print "All references fixed!".

(** *** One file read, changed and written *)

(** What reading [path], applying [edit], writing the result and printing
    [line] comes to. *)
Definition rewritten (edit : string -> string) (path line : string) (st : State)
  : (Exc + unit) * State :=
  match files st !! path with
  | None => (inr tt, st)
  | Some Directory => (inl (IsADirectoryError path), st)
  | Some (File data readable writable) =>
      if readable then
        if utf8_valid data then
          if writable then
            (inr tt,
             mkState (<[path := File (newlines_out linesep (edit (universal_newlines data)))
                                  readable writable]> (files st))
               (stdout st ++ [line]))
          else (inl (PermissionError path), st)
        else (inl (UnicodeDecodeError path), st)
      else (inl (PermissionError path), st)
  end.

Lemma fix_service_file_rewritten service_file st :
  fix_service_file service_file st
  = rewritten fix_service_content (docs_path service_file)
      ("Fixed references in " +:+ service_file) st.
Proof.
  unfold fix_service_file, rewritten, bind, path_exists, read_text, write_text, print, ret.
  destruct (files st !! docs_path service_file) as [[data r w|]|] eqn:E.
  - rewrite bool_decide_eq_true_2 by eauto. rewrite E.
    destruct r; [|reflexivity]. destruct (utf8_valid data); [|reflexivity].
    rewrite E. destruct w; reflexivity.
  - rewrite bool_decide_eq_true_2 by eauto. rewrite E. reflexivity.
  - rewrite bool_decide_eq_false_2 by (intros [x Hx]; discriminate). reflexivity.
Qed.

Lemma fix_maintenance_guide_rewritten st :
  fix_maintenance_guide st
  = rewritten fix_maintenance_content (docs_path "maintenance-guide.md")
      "Fixed references in maintenance-guide.md" st.
Proof.
  unfold fix_maintenance_guide, rewritten, bind, path_exists, read_text, write_text, print, ret.
  destruct (files st !! docs_path "maintenance-guide.md") as [[data r w|]|] eqn:E.
  - rewrite bool_decide_eq_true_2 by eauto. rewrite E.
    destruct r; [|reflexivity]. destruct (utf8_valid data); [|reflexivity].
    rewrite E. destruct w; reflexivity.
  - rewrite bool_decide_eq_true_2 by eauto. rewrite E. reflexivity.
  - rewrite bool_decide_eq_false_2 by (intros [x Hx]; discriminate). reflexivity.
Qed.

(** An exception leaves the files and the output as they were. *)
Lemma rewritten_raises edit path line st e :
  (rewritten edit path line st).1 = inl e -> (rewritten edit path line st).2 = st.
Proof.
  unfold rewritten.
  destruct (files st !! path) as [[data [] w|]|]; try reflexivity.
  destruct (utf8_valid data); [|reflexivity].
  destruct w; [discriminate|reflexivity].
Qed.

Lemma rewritten_other edit path line st path' :
  path' <> path ->
  files (rewritten edit path line st).2 !! path' = files st !! path'.
Proof.
  intros Hne. unfold rewritten.
  destruct (files st !! path) as [[data [] w|]|]; try reflexivity.
  destruct (utf8_valid data); [|reflexivity].
  destruct w; [|reflexivity].
  cbn [snd files]. apply lookup_insert_ne. congruence.
Qed.

Lemma rewritten_dom edit path line st :
  dom (files (rewritten edit path line st).2) = dom (files st).
Proof.
  unfold rewritten.
  destruct (files st !! path) as [[data [] w|]|] eqn:E; try reflexivity.
  destruct (utf8_valid data); [|reflexivity].
  destruct w; [|reflexivity].
  cbn [snd files]. rewrite dom_insert_L.
  assert (H : path ∈ dom (files st)) by (apply elem_of_dom; eauto).
  apply set_eq. intros x. rewrite elem_of_union, elem_of_singleton.
  split; [intros [->|Hx]; assumption | auto].
Qed.

(** A file that is there and cannot be read as UTF-8 text. *)
Definition unreadable (node : Node) : bool :=
  match node with
  | Directory => true
  | File data readable _ => negb readable || negb (utf8_valid data)
  end.

Lemma rewritten_unreadable edit path line st node :
  files st !! path = Some node -> unreadable node = true ->
  exists e, rewritten edit path line st = (inl e, st).
Proof.
  intros E Hu. unfold rewritten. rewrite E.
  destruct node as [data [] w|]; cbn in Hu; eauto.
  destruct (utf8_valid data); [discriminate|eauto].
Qed.

Lemma docs_path_inj f g : docs_path f = docs_path g -> f = g.
Proof. unfold docs_path. intros H. injection H. auto. Qed.

(** *** The loop over the service files *)

Lemma for_each_other (l : list string) st path :
  path ∉ docs_path <$> l ->
  files (for_each fix_service_file l st).2 !! path = files st !! path.
Proof.
  revert st; induction l as [|f l IH]; intros st Hnot; [reflexivity|].
  rewrite fmap_cons, not_elem_of_cons in Hnot. destruct Hnot as [Hne Hnot].
  cbn [for_each]. unfold bind.
  pose proof (rewritten_other fix_service_content (docs_path f)
                ("Fixed references in " +:+ f) st path Hne) as Ho.
  rewrite <- fix_service_file_rewritten in Ho.
  destruct (fix_service_file f st) as [[e|[]] st']; cbn [snd] in *; [exact Ho|].
  rewrite (IH st' Hnot). exact Ho.
Qed.

Lemma for_each_dom (l : list string) st :
  dom (files (for_each fix_service_file l st).2) = dom (files st).
Proof.
  revert st; induction l as [|f l IH]; intros st; [reflexivity|].
  cbn [for_each]. unfold bind.
  pose proof (rewritten_dom fix_service_content (docs_path f)
                ("Fixed references in " +:+ f) st) as Hd.
  rewrite <- fix_service_file_rewritten in Hd.
  destruct (fix_service_file f st) as [[e|[]] st']; cbn [snd] in *; [exact Hd|].
  rewrite (IH st'). exact Hd.
Qed.

(** The lines for the files of [l] that are there. *)
Definition lines_for (st : State) (l : list string) : list string :=
  (fun f => "Fixed references in " +:+ f)
  <$> List.filter (fun f => bool_decide (is_Some (files st !! docs_path f))) l.

Lemma lines_for_dom st st' l :
  dom (files st') = dom (files st) -> lines_for st' l = lines_for st l.
Proof.
  intros Hd. unfold lines_for. f_equal.
  induction l as [|f l IH]; [reflexivity|]. cbn [List.filter]. rewrite IH.
  assert (Hb : bool_decide (is_Some (files st' !! docs_path f))
               = bool_decide (is_Some (files st !! docs_path f))).
  { apply bool_decide_ext. rewrite <- !elem_of_dom, Hd. reflexivity. }
  rewrite Hb. reflexivity.
Qed.

Lemma lines_for_cons st f l :
  lines_for st (f :: l)
  = (if bool_decide (is_Some (files st !! docs_path f))
     then ["Fixed references in " +:+ f] else []) ++ lines_for st l.
Proof.
  unfold lines_for. cbn [List.filter].
  destruct (bool_decide (is_Some (files st !! docs_path f))); reflexivity.
Qed.

Lemma rewritten_stdout edit path line st :
  exists printed,
    stdout (rewritten edit path line st).2 = stdout st ++ printed
    /\ printed `prefix_of`
         (if bool_decide (is_Some (files st !! path)) then [line] else [])
    /\ ((rewritten edit path line st).1 = inr tt ->
        printed = if bool_decide (is_Some (files st !! path)) then [line] else []).
Proof.
  unfold rewritten.
  destruct (files st !! path) as [[data r w|]|] eqn:E.
  - rewrite bool_decide_eq_true_2 by eauto.
    destruct r, (utf8_valid data), w; cbn [fst snd stdout];
      try (exists []; rewrite app_nil_r;
           repeat split; [apply prefix_nil | discriminate]).
    exists [line]. repeat split. reflexivity.
  - rewrite bool_decide_eq_true_2 by eauto. cbn [fst snd].
    exists []. rewrite app_nil_r. repeat split; [apply prefix_nil | discriminate].
  - rewrite bool_decide_eq_false_2 by (intros [x Hx]; discriminate).
    cbn [fst snd]. exists []. rewrite app_nil_r. repeat split. reflexivity.
Qed.

Lemma for_each_stdout (l : list string) st :
  exists printed,
    stdout (for_each fix_service_file l st).2 = stdout st ++ printed
    /\ printed `prefix_of` lines_for st l
    /\ ((for_each fix_service_file l st).1 = inr tt -> printed = lines_for st l).
Proof.
  revert st; induction l as [|f l IH]; intros st.
  - exists []. cbn. rewrite app_nil_r. repeat split. reflexivity.
  - cbn [for_each]. unfold bind. rewrite lines_for_cons.
    pose proof (rewritten_dom fix_service_content (docs_path f)
                  ("Fixed references in " +:+ f) st) as Hd.
    destruct (rewritten_stdout fix_service_content (docs_path f)
                ("Fixed references in " +:+ f) st) as (p1 & Hp1 & Hpre1 & Hall1).
    rewrite <- fix_service_file_rewritten in Hd, Hp1, Hall1.
    destruct (fix_service_file f st) as [[e|[]] st'] eqn:Ef; cbn [fst snd] in *.
    + exists p1. repeat split;
        [exact Hp1 | apply prefix_app_r, Hpre1 | discriminate].
    + destruct (IH st') as (p2 & Hp2 & Hpre2 & Hall2).
      rewrite (lines_for_dom st st' l Hd) in Hpre2, Hall2.
      rewrite (Hall1 eq_refl) in Hp1.
      exists ((if bool_decide (is_Some (files st !! docs_path f))
               then ["Fixed references in " +:+ f] else []) ++ p2).
      rewrite Hp2, Hp1, <- app_assoc.
      repeat split; [apply prefix_app, Hpre2 | intros H; f_equal; apply Hall2, H].
Qed.


Lemma for_each_unreadable (l : list string) st f node :
  f ∈ l -> files st !! docs_path f = Some node -> unreadable node = true ->
  exists e, (for_each fix_service_file l st).1 = inl e
            /\ files (for_each fix_service_file l st).2 !! docs_path f = Some node.
Proof.
  revert st; induction l as [|g l IH]; intros st Hin E Hu.
  - apply elem_of_nil in Hin. contradiction.
  - cbn [for_each]. unfold bind.
    destruct (decide (g = f)) as [->|Hne].
    + rewrite fix_service_file_rewritten.
      destruct (rewritten_unreadable fix_service_content (docs_path f)
                  ("Fixed references in " +:+ f) st node E Hu) as [e ->].
      exists e. split; [reflexivity | exact E].
    + apply elem_of_cons in Hin as [->|Hin]; [contradiction Hne; reflexivity|].
      assert (Hp : docs_path f <> docs_path g)
        by (intros H; apply Hne; symmetry; apply docs_path_inj, H).
      pose proof (rewritten_other fix_service_content (docs_path g)
                    ("Fixed references in " +:+ g) st (docs_path f) Hp) as Ho.
      rewrite <- fix_service_file_rewritten in Ho.
      destruct (fix_service_file g st) as [[e|[]] st']; cbn [snd] in *.
      * exists e. split; [reflexivity | rewrite Ho; exact E].
      * apply IH; [exact Hin | rewrite Ho; exact E | exact Hu].
Qed.

(** A file that reading and writing leave byte for byte as it is, for a
    text that the replacements leave as it is: readable, writable, well
    formed and without a carriage return; or no file at all. *)
Definition kept (node : option Node) : bool :=
  match node with
  | None => true
  | Some (File data readable writable) =>
      readable && writable && utf8_valid data
      && negb (PyString.contains (String CR "") data)
  | Some Directory => false
  end.

Lemma rewritten_kept edit path line st :
  linesep = String LF "" ->
  kept (files st !! path) = true ->
  (forall data r w, files st !! path = Some (File data r w) -> edit data = data) ->
  (rewritten edit path line st).1 = inr tt
  /\ files (rewritten edit path line st).2 = files st.
Proof.
  intros Hl Hk Hfix. unfold rewritten.
  destruct (files st !! path) as [[data r w|]|] eqn:E; cbn [kept] in Hk;
    [|discriminate|split; reflexivity].
  apply andb_true_iff in Hk as [Hk Hcr]. apply andb_true_iff in Hk as [Hk Hv].
  apply andb_true_iff in Hk as [-> ->]. rewrite Hv.
  apply negb_true_iff in Hcr.
  rewrite (universal_newlines_without_cr data Hcr), (Hfix data true true eq_refl).
  rewrite Hl, newlines_out_lf. cbn [fst snd files].
  split; [reflexivity | apply insert_id, E].
Qed.

Lemma for_each_kept (l : list string) st :
  linesep = String LF "" ->
  Forall (fun f => kept (files st !! docs_path f) = true) l ->
  (for_each fix_service_file l st).1 = inr tt
  /\ files (for_each fix_service_file l st).2 = files st.
Proof.
  intros Hl. revert st; induction l as [|f l IH]; intros st Hk.
  - split; reflexivity.
  - apply Forall_cons in Hk as [Hf Hk].
    cbn [for_each]. unfold bind.
    destruct (rewritten_kept fix_service_content (docs_path f)
                ("Fixed references in " +:+ f) st Hl Hf
                (fun data _ _ _ => fix_service_content_same data)) as [H1 H2].
    rewrite <- fix_service_file_rewritten in H1, H2.
    destruct (fix_service_file f st) as [[e|[]] st']; cbn [fst snd] in *;
      [discriminate|].
    rewrite <- H2 in Hk. destruct (IH st' Hk) as [H3 H4].
    split; [exact H3 | rewrite H4; exact H2].
Qed.

Lemma fix_maintenance_content_without_links content :
  PyString.contains "[`agent/myagent.py`](../agent/myagent.py:1)" content = false ->
  PyString.contains "[`docker-compose.yml`](../docker-compose.yml:44-50)" content = false ->
  PyString.contains "[`LocalAgent.__init__()`](../agent/myagent.py:57)" content = false ->
  PyString.contains "[New Service](services/new-service.md)" content = false ->
  fix_maintenance_content content = content.
Proof.
  intros H1 H2 H3 H4. unfold fix_maintenance_content.
  rewrite (replace_absent _ _ _ H1), (replace_absent _ _ _ H2),
    (replace_absent _ _ _ H3), replace_same, (replace_absent _ _ _ H4).
  reflexivity.
Qed.

(** *** The service files *)


(** *** What [fix_references] touches *)

(** X18.  Whether it returns or raises, [fix_references] leaves every path
    other than the six service files and the maintenance guide as it was,
    and creates and deletes no file. *)
Theorem fix_references_touches_only_its_files st path :
  path ∉ docs_path <$> service_files ->
  path <> docs_path "maintenance-guide.md" ->
  files (fix_references st).2 !! path = files st !! path
  /\ dom (files (fix_references st).2) = dom (files st).
Proof.
  intros Hs Hg. unfold fix_references, bind.
  pose proof (for_each_other service_files st path Hs) as Ho.
  pose proof (for_each_dom service_files st) as Hd.
  destruct (for_each fix_service_file service_files st) as [[e|[]] st'];
    cbn [snd] in *; [split; assumption|].
  rewrite fix_maintenance_guide_rewritten.
  rewrite rewritten_other by exact Hg. rewrite rewritten_dom.
  split; assumption.
Qed.

(** X19.  What [fix_references] prints is a beginning of the list that holds
    one line for each service file that is there, in the order of the
    loop, and then one for the maintenance guide if it is there; it is
    the whole list when [fix_references] returns. *)
Theorem fix_references_prints_the_files_rewritten st :
  let expected :=
    lines_for st service_files
    ++ (if bool_decide (is_Some (files st !! docs_path "maintenance-guide.md"))
        then ["Fixed references in maintenance-guide.md"] else []) in
  exists printed,
    stdout (fix_references st).2 = stdout st ++ printed
    /\ printed `prefix_of` expected
    /\ ((fix_references st).1 = inr tt -> printed = expected).
Proof.
  intros expected. subst expected. unfold fix_references, bind.
  destruct (for_each_stdout service_files st) as (p1 & Hp1 & Hpre1 & Hall1).
  pose proof (for_each_dom service_files st) as Hd.
  destruct (for_each fix_service_file service_files st) as [[e|[]] st'];
    cbn [fst snd] in *.
  - exists p1. repeat split;
      [exact Hp1 | apply prefix_app_r, Hpre1 | discriminate].
  - rewrite (Hall1 eq_refl) in Hp1.
    assert (Hb : bool_decide (is_Some (files st' !! docs_path "maintenance-guide.md"))
                 = bool_decide (is_Some (files st !! docs_path "maintenance-guide.md"))).
    { apply bool_decide_ext. rewrite <- !elem_of_dom, Hd. reflexivity. }
    destruct (rewritten_stdout fix_maintenance_content (docs_path "maintenance-guide.md")
                "Fixed references in maintenance-guide.md" st')
      as (p2 & Hp2 & Hpre2 & Hall2).
    rewrite Hb in Hpre2, Hall2.
    rewrite <- fix_maintenance_guide_rewritten in Hp2, Hall2.
    exists (lines_for st service_files ++ p2).
    rewrite Hp2, Hp1, <- app_assoc.
    repeat split; [apply prefix_app, Hpre2 | intros H; f_equal; apply Hall2, H].
Qed.

(** *** A guide without the links *)

(** X20.  A maintenance guide that can be opened both ways, holds well-formed
    UTF-8 and, once read, none of the four link texts the script looks
    for is written back with the text that was read, each [\n] as
    [linesep].  Where [linesep] is [\n] and the guide holds no carriage
    return, the files are afterwards what they were. *)
Theorem guide_without_the_links_is_unchanged st data :
  files st !! docs_path "maintenance-guide.md" = Some (File data true true) ->
  utf8_valid data = true ->
  let content := universal_newlines data in
  PyString.contains "[`agent/myagent.py`](../agent/myagent.py:1)" content = false ->
  PyString.contains "[`docker-compose.yml`](../docker-compose.yml:44-50)" content = false ->
  PyString.contains "[`LocalAgent.__init__()`](../agent/myagent.py:57)" content = false ->
  PyString.contains "[New Service](services/new-service.md)" content = false ->
  fix_maintenance_content content = content
  /\ fix_maintenance_guide st
     = (inr tt,
        mkState (<[docs_path "maintenance-guide.md" :=
                     File (newlines_out linesep content) true true]> (files st))
          (stdout st ++ ["Fixed references in maintenance-guide.md"]))
  /\ (linesep = String LF "" ->
      PyString.contains (String CR "") data = false ->
      files (fix_maintenance_guide st).2 = files st).
Proof.
  intros E Hv content H1 H2 H3 H4.
  pose proof (fix_maintenance_content_without_links content H1 H2 H3 H4) as Hc.
  assert (Hrun : fix_maintenance_guide st
                 = (inr tt,
                    mkState (<[docs_path "maintenance-guide.md" :=
                                 File (newlines_out linesep content) true true]> (files st))
                      (stdout st ++ ["Fixed references in maintenance-guide.md"]))).
  { rewrite fix_maintenance_guide_rewritten. unfold rewritten.
    rewrite E, Hv. fold content. rewrite Hc. reflexivity. }
  split; [exact Hc|]. split; [exact Hrun|].
  intros Hl Hcr. rewrite Hrun. cbn [snd files]. subst content.
  rewrite (universal_newlines_without_cr data Hcr), Hl, newlines_out_lf.
  apply insert_id, E.
Qed.

(** *** A file that cannot be read *)

(** X21.  A service file that is there and is a directory, cannot be opened
    for reading or does not hold well-formed UTF-8 makes [fix_references]
    raise: that file and the maintenance guide are left as they were, and
    the program prints nothing after what [fix_references] has printed. *)
Theorem unreadable_service_file_stops_the_run st service_file node :
  service_file ∈ service_files ->
  files st !! docs_path service_file = Some node ->
  unreadable node = true ->
  exists e,
    (fix_references st).1 = inl e
    /\ files (fix_references st).2 !! docs_path service_file = Some node
    /\ files (fix_references st).2 !! docs_path "maintenance-guide.md"
       = files st !! docs_path "maintenance-guide.md"
    /\ main st = (inl e, (fix_references st).2).
Proof.
  intros Hin E Hu.
  destruct (for_each_unreadable service_files st service_file node Hin E Hu)
    as (e & He & Hf).
  assert (Hg : docs_path "maintenance-guide.md" ∉ docs_path <$> service_files)
    by decide_by_compute.
  pose proof (for_each_other service_files st _ Hg) as Ho.
  exists e. unfold main, fix_references, bind.
  destruct (for_each fix_service_file service_files st) as [[e'|[]] st'];
    cbn [fst snd] in *; [|discriminate].
  injection He as ->. repeat split; assumption.
Qed.

(** *** A run that changes nothing *)

(** X22.  Where [linesep] is [\n], and each of the six service files and the
    maintenance guide is missing or can be opened both ways, holds
    well-formed UTF-8 and no carriage return, and the guide holds none of
    the four link texts, [fix_references] returns and the files are what
    they were. *)
Theorem fix_references_keeps_clean_files st :
  linesep = String LF "" ->
  Forall (fun f => kept (files st !! docs_path f) = true)
         (service_files ++ ["maintenance-guide.md"]) ->
  (forall data r w,
     files st !! docs_path "maintenance-guide.md" = Some (File data r w) ->
     PyString.contains "[`agent/myagent.py`](../agent/myagent.py:1)" data = false
     /\ PyString.contains "[`docker-compose.yml`](../docker-compose.yml:44-50)" data = false
     /\ PyString.contains "[`LocalAgent.__init__()`](../agent/myagent.py:57)" data = false
     /\ PyString.contains "[New Service](services/new-service.md)" data = false) ->
  (fix_references st).1 = inr tt
  /\ files (fix_references st).2 = files st.
Proof.
  intros Hl Hk Hlinks.
  apply Forall_app in Hk as [Hs Hg]. apply Forall_cons in Hg as [Hg _].
  destruct (for_each_kept service_files st Hl Hs) as [H1 H2].
  unfold fix_references, bind.
  destruct (for_each fix_service_file service_files st) as [[e|[]] st'];
    cbn [fst snd] in *; [discriminate|].
  rewrite fix_maintenance_guide_rewritten.
  rewrite <- H2 in Hg.
  destruct (rewritten_kept fix_maintenance_content (docs_path "maintenance-guide.md")
              "Fixed references in maintenance-guide.md" st' Hl Hg) as [H3 H4].
  - intros data r w E. rewrite H2 in E.
    destruct (Hlinks data r w E) as (L1 & L2 & L3 & L4).
    apply fix_maintenance_content_without_links; assumption.
  - split; [exact H3 | rewrite H4; exact H2].
Qed.

End Platform.

(** *** Runs on a POSIX system *)

Definition posix : string := String LF "".

(** A service file with the three line endings. *)
Definition three_line_endings : string :=
  "line1" +:+ String CR (String LF ("line2" +:+ String CR ("line3" +:+ String LF ""))).

Definition crlf_docs : State :=
  mkState {[ "docs/services/agent.md" := File three_line_endings true true ]} [].


(** What that run leaves: the line endings are all [\n]. *)
Example crlf_service_file_run :
  fix_references posix crlf_docs
  = (inr tt,
     mkState {[ "docs/services/agent.md" :=
                  File ("line1" +:+ String LF ("line2" +:+ String LF
                          ("line3" +:+ String LF ""))) true true ]}
       ["Fixed references in services/agent.md"]).
Proof. vm_compute. reflexivity. Qed.

(** A service file that holds the three links, and a maintenance guide
    that holds one link the script does change. *)
Definition ex_docs : State :=
  mkState (<["docs/services/agent.md" :=
               File "[docs/architecture.md](../architecture.md)" true true]>
           (<["docs/maintenance-guide.md" :=
                File "[New Service](services/new-service.md)" true true]> ∅)) [].

Example fix_references_run :
  (main posix ex_docs).1 = inr tt
  /\ files (main posix ex_docs).2 !! "docs/services/agent.md"
     = Some (File "[docs/architecture.md](../architecture.md)" true true)
  /\ files (main posix ex_docs).2 !! "docs/maintenance-guide.md"
     = Some (File "[New Service](services/agent.md)" true true)
  /\ stdout (main posix ex_docs).2
     = ["Fixed references in services/agent.md";
        "Fixed references in maintenance-guide.md";
        "All references fixed!"].
Proof. repeat split; vm_compute; reflexivity. Qed.

(** A second service file in Latin-1: the first file is rewritten and
    announced, then the run stops. *)
Definition latin1_docs : State :=
  mkState (<["docs/services/agent.md" := File "agent" true true]>
           (<["docs/services/whisper.md" := File (String "233"%char "t") true true]>
            (<["docs/maintenance-guide.md" :=
                 File "[New Service](services/new-service.md)" true true]> ∅))) [].

Example latin1_service_file_run :
  (main posix latin1_docs).1 = inl (UnicodeDecodeError "docs/services/whisper.md")
  /\ files (main posix latin1_docs).2 = files latin1_docs
  /\ stdout (main posix latin1_docs).2 = ["Fixed references in services/agent.md"].
Proof. repeat split; vm_compute; reflexivity. Qed.


Lemma fix_references_touches_only_its_files_witness :
  ("README.md" ∉ docs_path <$> service_files)
  /\ "README.md" <> docs_path "maintenance-guide.md"
  /\ files (fix_references posix ex_docs).2 !! "README.md" = files ex_docs !! "README.md".
Proof.
  assert (H1 : "README.md" ∉ docs_path <$> service_files) by decide_by_compute.
  assert (H2 : "README.md" <> docs_path "maintenance-guide.md") by discriminate.
  split; [exact H1|]. split; [exact H2|].
  exact (proj1 (fix_references_touches_only_its_files posix ex_docs "README.md" H1 H2)).
Defined.

Definition ex_guide : State :=
  mkState {[ "docs/maintenance-guide.md" :=
               File "See [the agent](services/agent.md)." true true ]} [].

Lemma guide_without_the_links_is_unchanged_witness :
  files ex_guide !! docs_path "maintenance-guide.md"
  = Some (File "See [the agent](services/agent.md)." true true)
  /\ fix_maintenance_content "See [the agent](services/agent.md)."
     = "See [the agent](services/agent.md).".
Proof.
  split; [reflexivity|].
  exact (proj1 (guide_without_the_links_is_unchanged posix ex_guide
                  "See [the agent](services/agent.md)."
                  eq_refl eq_refl eq_refl eq_refl eq_refl eq_refl)).
Defined.

Lemma unreadable_service_file_stops_the_run_witness :
  "services/whisper.md" ∈ service_files
  /\ unreadable (File (String "233"%char "t") true true) = true
  /\ exists e,
       (fix_references posix latin1_docs).1 = inl e
       /\ files (fix_references posix latin1_docs).2 !! docs_path "services/whisper.md"
          = Some (File (String "233"%char "t") true true)
       /\ files (fix_references posix latin1_docs).2 !! docs_path "maintenance-guide.md"
          = files latin1_docs !! docs_path "maintenance-guide.md"
       /\ main posix latin1_docs = (inl e, (fix_references posix latin1_docs).2).
Proof.
  assert (Hin : "services/whisper.md" ∈ service_files) by decide_by_compute.
  split; [exact Hin|]. split; [reflexivity|].
  exact (unreadable_service_file_stops_the_run posix latin1_docs "services/whisper.md"
           (File (String "233"%char "t") true true) Hin eq_refl eq_refl).
Defined.

Lemma fix_references_keeps_clean_files_witness :
  posix = String LF ""
  /\ (fix_references posix ex_guide).1 = inr tt
  /\ files (fix_references posix ex_guide).2 = files ex_guide.
Proof.
  split; [reflexivity|].
  apply (fix_references_keeps_clean_files posix ex_guide eq_refl).
  - unfold service_files. repeat (apply Forall_cons; split; [vm_compute; reflexivity|]).
    apply Forall_nil_2.
  - intros data r w E. vm_compute in E. injection E as <- _ _.
    repeat split; vm_compute; reflexivity.
Defined.

End FixDocs.

(** ** The voice session of the specification

    The repository holds no code for turns, turn detection or barge-in: the
    agent hands the session to the library's [AgentSession].  This module
    follows the specification's own description of the session (sections 3,
    4.2, 4.3, 4.6 and 5). *)

Module Session.

(** Modelled from the spec: the states of a turn (section 3); no turn type
    exists in the sources. *)
Inductive TurnState : Type :=
| listening | transcribing | finalized | replying | speaking
| interrupted | completed.

(** Modelled from the spec: the terminal states, "completed" and
    "interrupted" (section 3). *)
Definition terminal (st : TurnState) : bool :=
  match st with
  | interrupted | completed => true
  | _ => false
  end.

(** Modelled from the spec: the transitions of invariant (b),
    listening, transcribing, finalized, replying, speaking, completed; a
    terminal state has no successor. *)
Definition next_state (st : TurnState) : TurnState :=
  match st with
  | listening => transcribing
  | transcribing => finalized
  | finalized => replying
  | replying => speaking
  | speaking => completed
  | interrupted => interrupted
  | completed => completed
  end.

(** Modelled from the spec: a turn (section 3), with its identifier, its
    state, and the sequence number of the frame that confirmed its start. *)
Record Turn : Type := mkTurn {
  turn_id : nat;
  turn_state : TurnState;
  started_at : nat
}.

(** Modelled from the spec: a turn is active when it is neither completed
    nor interrupted (section 3). *)
Definition active (t : Turn) : bool := negb (terminal (turn_state t)).

(** Modelled from the spec: an AudioOutputChunk, tied to a turn id and a
    chunk index (section 3). *)
Record Chunk : Type := mkChunk {
  chunk_turn : nat;
  chunk_index : nat
}.

(** Modelled from the spec: the states of the TurnDetector (section 4.2);
    the two "possible" states count the contiguous frames seen so far. *)
Inductive VadState : Type :=
| Silence
| PossibleSpeech (n : nat)
| Speech
| PossibleSilence (n : nat).

(** Modelled from the spec: the turn-boundary events, each with the
    sequence number of the frame that confirmed it (section 4.2). *)
Inductive VadEvent : Type :=
| SpeechStart (seq : nat)
| SpeechEnd (seq : nat).

(** Modelled from the spec: what reaches the session: an audio frame, as
    the detector classifies it; a stage's request for the next transition
    of a turn, or its report of a failure on a turn (section 5: every
    transition request goes through the one decision point); a chunk the
    Synthesizer hands over; and the sending of the buffered output across
    the output boundary. *)
Inductive Input : Type :=
| Frame (is_speech : bool)
| Progress (id : nat)
| Failure (id : nat)
| Audio (c : Chunk)
| Flush.

(** Modelled from the spec: a session (section 3): the detector, the
    number of frames seen, the ordered turn history, the synthesized output
    not yet sent, and the output that crossed the boundary. *)
Record Session : Type := mkSession {
  vad : VadState;
  next_seq : nat;
  turns : list Turn;
  buffered : list Chunk;
  emitted : list Chunk
}.

(** Modelled from the spec: a session at its creation: silence, no turn,
    no output. *)
Definition initial : Session := mkSession Silence 0 [] [] [].

Section Thresholds.

(** The two thresholds of section 4.2, in frames: the contiguous speech
    that confirms [Speech], the contiguous silence that confirms the end
    of the turn. *)
Context (min_speech min_silence : nat).

(** Modelled from the spec: the TurnDetector's transitions (section 4.2):
    [SpeechStart] when speech is confirmed, [SpeechEnd] when silence is. *)
Definition vad_step (st : VadState) (seq : nat) (is_speech : bool)
    : VadState * option VadEvent :=
  match st, is_speech with
  | Silence, true =>
      if (min_speech <=? 1)%nat then (Speech, Some (SpeechStart seq))
      else (PossibleSpeech 1, None)
  | Silence, false => (Silence, None)
  | PossibleSpeech n, true =>
      if (min_speech <=? S n)%nat then (Speech, Some (SpeechStart seq))
      else (PossibleSpeech (S n), None)
  | PossibleSpeech _, false => (Silence, None)
  | Speech, true => (Speech, None)
  | Speech, false =>
      if (min_silence <=? 1)%nat then (Silence, Some (SpeechEnd seq))
      else (PossibleSilence 1, None)
  | PossibleSilence n, false =>
      if (min_silence <=? S n)%nat then (Silence, Some (SpeechEnd seq))
      else (PossibleSilence (S n), None)
  | PossibleSilence _, true => (Speech, None)
  end.

(** Modelled from the spec: a transition of the turn with a given id. *)
Definition update_turn (id : nat) (f : TurnState -> TurnState) (l : list Turn)
    : list Turn :=
  List.map (fun t => if (turn_id t =? id)%nat
                     then mkTurn (turn_id t) (f (turn_state t)) (started_at t)
                     else t) l.

(** Modelled from the spec: [interrupted] is reachable from any
    non-terminal state and is terminal itself (invariant (b)). *)
Definition interrupt (st : TurnState) : TurnState :=
  if terminal st then st else interrupted.

(** Modelled from the spec: at [SpeechEnd] the final segment is emitted,
    after which the turn moves to [finalized] (section 4.3). *)
Definition finalize (st : TurnState) : TurnState :=
  match st with
  | listening | transcribing => finalized
  | _ => st
  end.

(** Modelled from the spec: a [SpeechStart] at the decision point.  With
    no active turn a new turn starts.  While the active turn is replying or
    speaking (section 4.6) that turn is marked interrupted, its buffered
    output is dropped, and the next turn starts.  For an active turn in
    another state the specification gives no rule, and the session stays
    as it is. *)
Definition on_speech_start (seq : nat) (s : Session) : Session :=
  match List.find active (turns s) with
  | None =>
      mkSession (vad s) (next_seq s)
        (turns s ++ [mkTurn (length (turns s)) listening seq])
        (buffered s) (emitted s)
  | Some t =>
      match turn_state t with
      | replying | speaking =>
          mkSession (vad s) (next_seq s)
            (update_turn (turn_id t) interrupt (turns s)
             ++ [mkTurn (length (turns s)) listening seq])
            (List.filter (fun c => negb (chunk_turn c =? turn_id t)%nat) (buffered s))
            (emitted s)
      | _ => s
      end
  end.

(** Modelled from the spec: a [SpeechEnd] at the decision point. *)
Definition on_speech_end (s : Session) : Session :=
  match List.find active (turns s) with
  | Some t =>
      mkSession (vad s) (next_seq s) (update_turn (turn_id t) finalize (turns s))
        (buffered s) (emitted s)
  | None => s
  end.

(** Modelled from the spec: a chunk is kept for sending while its turn is
    replying or speaking, and discarded otherwise (sections 4.4 to 4.6). *)
Definition accepts_audio (s : Session) (c : Chunk) : bool :=
  match List.find (fun t => (turn_id t =? chunk_turn c)%nat) (turns s) with
  | Some t => match turn_state t with
              | replying | speaking => true
              | _ => false
              end
  | None => false
  end.

(** Modelled from the spec: the session's reaction to one input. *)
Definition step (s : Session) (i : Input) : Session :=
  match i with
  | Frame is_speech =>
      let '(vad', ev) := vad_step (vad s) (next_seq s) is_speech in
      let s' := mkSession vad' (S (next_seq s)) (turns s) (buffered s) (emitted s) in
      match ev with
      | Some (SpeechStart seq) => on_speech_start seq s'
      | Some (SpeechEnd _) => on_speech_end s'
      | None => s'
      end
  | Progress id =>
      mkSession (vad s) (next_seq s) (update_turn id next_state (turns s))
        (buffered s) (emitted s)
  | Failure id =>
      mkSession (vad s) (next_seq s) (update_turn id interrupt (turns s))
        (buffered s) (emitted s)
  | Audio c =>
      if accepts_audio s c
      then mkSession (vad s) (next_seq s) (turns s) (buffered s ++ [c]) (emitted s)
      else s
  | Flush =>
      mkSession (vad s) (next_seq s) (turns s) [] (emitted s ++ buffered s)
  end.

(** Modelled from the spec: the inputs are decided one at a time, in the
    order they reach the decision point (section 5). *)
Definition run (inputs : list Input) (s : Session) : Session :=
  foldl step s inputs.

(** The active turns of a session. *)
Definition active_turns (s : Session) : list Turn := List.filter active (turns s).

(** *** At most one active turn *)

Lemma terminal_next_state st : terminal st = true -> terminal (next_state st) = true.
Proof. destruct st; intros H; try discriminate; reflexivity. Qed.

Lemma terminal_interrupt st : terminal (interrupt st) = true.
Proof. destruct st; reflexivity. Qed.

Lemma terminal_finalize st : terminal st = true -> terminal (finalize st) = true.
Proof. destruct st; intros H; try discriminate; reflexivity. Qed.

(** A transition that keeps terminal states terminal adds no active turn. *)
Lemma update_turn_active id f l :
  (forall st, terminal st = true -> terminal (f st) = true) ->
  length (List.filter active (update_turn id f l))
  <= length (List.filter active l).
Proof.
  intros Hf. induction l as [|t l IH]; [reflexivity|].
  cbn [update_turn List.map List.filter]. fold (update_turn id f l).
  destruct (turn_id t =? id)%nat.
  - assert (Ha : active (mkTurn (turn_id t) (f (turn_state t)) (started_at t)) = true
                 -> active t = true).
    { unfold active; cbn [turn_state].
      destruct (terminal (turn_state t)) eqn:E; [rewrite (Hf _ E)|]; auto. }
    destruct (active (mkTurn _ _ _)); destruct (active t); cbn [length];
      first [lia | specialize (Ha eq_refl); discriminate].
  - destruct (active t); cbn [length]; lia.
Qed.

Lemma find_active_None l : List.find active l = None -> List.filter active l = [].
Proof.
  induction l as [|t l IH]; [reflexivity|]. cbn [List.find List.filter].
  destruct (active t); [discriminate | exact IH].
Qed.

Lemma find_active_Some l t :
  List.find active l = Some t -> In t l /\ active t = true.
Proof. apply find_some. Qed.

(** With at most one active turn, the one found is the only one. *)
Lemma active_turn_unique l t t' :
  length (List.filter active l) <= 1 -> List.find active l = Some t ->
  In t' l -> active t' = true -> t' = t.
Proof.
  induction l as [|a l IH]; [intros _ _ []|].
  cbn [List.find List.filter]. destruct (active a) eqn:Ea.
  - intros Hlen Hfind [->|Hin] Ht'; [congruence|].
    cbn [length] in Hlen.
    assert (Hnil : List.filter active l = [])
      by (destruct (List.filter active l); [reflexivity | simpl in Hlen; lia]).
    assert (Hf : In t' (List.filter active l)) by (apply filter_In; auto).
    rewrite Hnil in Hf. destruct Hf.
  - intros Hlen Hfind [->|Hin] Ht'; [congruence | auto].
Qed.

Lemma interrupt_every_active id l :
  (forall t, In t l -> active t = true -> turn_id t = id) ->
  List.filter active (update_turn id interrupt l) = [].
Proof.
  induction l as [|t l IH]; intros H; [reflexivity|].
  cbn [update_turn List.map List.filter]. fold (update_turn id interrupt l).
  rewrite IH by (intros t' Hin; apply H; right; exact Hin).
  destruct (turn_id t =? id)%nat eqn:E.
  - unfold active. cbn [turn_state]. rewrite terminal_interrupt. reflexivity.
  - destruct (active t) eqn:Ea; [|reflexivity].
    apply Nat.eqb_neq in E. destruct E. apply H; [left; reflexivity | exact Ea].
Qed.

Lemma filter_active_app l t :
  List.filter active (l ++ [t])
  = List.filter active l ++ (if active t then [t] else []).
Proof. rewrite List.filter_app. reflexivity. Qed.

Lemma on_speech_start_active seq s :
  length (active_turns s) <= 1 ->
  length (active_turns (on_speech_start seq s)) <= 1.
Proof.
  unfold active_turns, on_speech_start. intros H.
  destruct (List.find active (turns s)) as [t|] eqn:Ef.
  - destruct (turn_state t) eqn:Est; try exact H;
      cbn [turns]; rewrite filter_active_app, interrupt_every_active;
      try reflexivity;
      intros t' Hin Ha; rewrite (active_turn_unique _ _ _ H Ef Hin Ha); reflexivity.
  - cbn [turns]. rewrite filter_active_app, (find_active_None _ Ef). reflexivity.
Qed.

Lemma on_speech_end_active s :
  length (active_turns s) <= 1 -> length (active_turns (on_speech_end s)) <= 1.
Proof.
  unfold active_turns, on_speech_end. intros H.
  destruct (List.find active (turns s)) as [t|]; [|exact H]. cbn [turns].
  etransitivity; [apply update_turn_active, terminal_finalize | exact H].
Qed.

Lemma step_active s i :
  length (active_turns s) <= 1 -> length (active_turns (step s i)) <= 1.
Proof.
  intros H. destruct i as [is_speech|id|id|c|]; cbn [step].
  - destruct (vad_step (vad s) (next_seq s) is_speech) as [vad' [[seq|seq]|]].
    + apply on_speech_start_active. exact H.
    + apply on_speech_end_active. exact H.
    + exact H.
  - unfold active_turns. cbn [turns].
    etransitivity; [apply update_turn_active, terminal_next_state | exact H].
  - unfold active_turns. cbn [turns].
    etransitivity; [apply update_turn_active | exact H].
    intros st _. apply terminal_interrupt.
  - destruct (accepts_audio s c); exact H.
  - exact H.
Qed.

Lemma run_active inputs s :
  length (active_turns s) <= 1 -> length (active_turns (run inputs s)) <= 1.
Proof.
  revert s. induction inputs as [|i inputs IH]; intros s H; [exact H|].
  cbn [run foldl]. apply IH, step_active, H.
Qed.

(** C6.  Whatever frames, stage requests and chunks a session processes
    from its start, it has at most one turn that is neither completed nor
    interrupted. *)
Theorem at_most_one_active_turn inputs :
  length (active_turns (run inputs initial)) <= 1.
Proof. apply run_active. cbn. lia. Qed.

(** *** The interruption cutoff *)

(** Every turn's id is below the number of turns: a new turn's id is new. *)
Definition ids_bounded (s : Session) : Prop :=
  forall t, In t (turns s) -> turn_id t < length (turns s).

(** Turn [n] is over and none of its output waits to be sent. *)
Definition cut_off (n : nat) (s : Session) : Prop :=
  n < length (turns s) /\
  (forall t, In t (turns s) -> turn_id t = n -> terminal (turn_state t) = true) /\
  (forall c, In c (buffered s) -> chunk_turn c <> n).

Lemma update_turn_length id f l : length (update_turn id f l) = length l.
Proof. apply length_map. Qed.

Lemma in_update_turn id f l t :
  In t (update_turn id f l) ->
  exists t0, In t0 l /\ turn_id t = turn_id t0 /\
             ((turn_id t0 <> id /\ t = t0) \/
              (turn_id t0 = id /\ turn_state t = f (turn_state t0))).
Proof.
  unfold update_turn. intros H. apply in_map_iff in H as (t0 & <- & Hin).
  exists t0. split; [exact Hin|].
  destruct (turn_id t0 =? id)%nat eqn:E; cbn [turn_id turn_state].
  - apply Nat.eqb_eq in E. auto.
  - apply Nat.eqb_neq in E. auto.
Qed.

Lemma update_turn_ids_bounded id f s vad' seq' buf em :
  ids_bounded s ->
  ids_bounded (mkSession vad' seq' (update_turn id f (turns s)) buf em).
Proof.
  intros H t Hin. cbn [turns] in *. rewrite update_turn_length.
  apply in_update_turn in Hin as (t0 & Hin & -> & _). apply H, Hin.
Qed.

Lemma append_turn_ids_bounded l n st seq :
  n = length l ->
  (forall t, In t l -> turn_id t < length l) ->
  forall t, In t (l ++ [mkTurn n st seq]) ->
            turn_id t < length (l ++ [mkTurn n st seq]).
Proof.
  intros -> H t Hin. rewrite length_app. cbn [length].
  apply in_app_or in Hin as [Hin|[<-|[]]]; [specialize (H _ Hin)|cbn]; lia.
Qed.

Lemma on_speech_start_ids_bounded seq s :
  ids_bounded s -> ids_bounded (on_speech_start seq s).
Proof.
  intros H. unfold on_speech_start.
  destruct (List.find active (turns s)) as [t|].
  - destruct (turn_state t); try exact H; unfold ids_bounded; cbn [turns];
      (apply append_turn_ids_bounded;
       [symmetry; apply update_turn_length
       | apply (update_turn_ids_bounded (turn_id t) interrupt s Silence 0 [] []), H]).
  - unfold ids_bounded; cbn [turns].
    apply append_turn_ids_bounded; [reflexivity | exact H].
Qed.

Lemma step_ids_bounded s i : ids_bounded s -> ids_bounded (step s i).
Proof.
  intros H. destruct i as [is_speech|id|id|c|]; cbn [step].
  - destruct (vad_step (vad s) (next_seq s) is_speech) as [vad' [[seq|seq]|]].
    + apply on_speech_start_ids_bounded. exact H.
    + unfold on_speech_end. cbn [turns].
      destruct (List.find active (turns s)) as [t|]; [|exact H].
      apply (update_turn_ids_bounded _ _ s), H.
    + exact H.
  - apply (update_turn_ids_bounded _ _ s), H.
  - apply (update_turn_ids_bounded _ _ s), H.
  - destruct (accepts_audio s c); exact H.
  - exact H.
Qed.

Lemma run_ids_bounded inputs s : ids_bounded s -> ids_bounded (run inputs s).
Proof.
  revert s. induction inputs as [|i inputs IH]; intros s H; [exact H|].
  cbn [run foldl]. apply IH, step_ids_bounded, H.
Qed.

(** A transition that keeps terminal states terminal keeps a turn cut off. *)
Lemma update_turn_cut_off n id f s vad' seq' :
  (forall st, terminal st = true -> terminal (f st) = true) ->
  cut_off n s ->
  cut_off n (mkSession vad' seq' (update_turn id f (turns s)) (buffered s) (emitted s)).
Proof.
  intros Hf (Hn & Ht & Hb). unfold cut_off. cbn [turns buffered].
  rewrite update_turn_length. split; [exact Hn|]. split; [|exact Hb].
  intros t Hin Hid. apply in_update_turn in Hin as (t0 & Hin & Hid0 & Hst).
  assert (H0 : terminal (turn_state t0) = true) by (apply Ht; [exact Hin | congruence]).
  destruct Hst as [[_ ->]|[_ ->]]; [exact H0 | apply Hf, H0].
Qed.

Lemma append_turn_cut_off n s vad' seq' l buf st seq :
  length l = length (turns s) ->
  cut_off n (mkSession vad' seq' l buf (emitted s)) ->
  cut_off n (mkSession vad' seq' (l ++ [mkTurn (length (turns s)) st seq]) buf (emitted s)).
Proof.
  intros Hlen (Hn & Ht & Hb). unfold cut_off in *. cbn [turns buffered] in *.
  rewrite length_app. cbn [length]. split; [lia|]. split; [|exact Hb].
  intros t Hin Hid. apply in_app_or in Hin as [Hin|[<-|[]]]; [auto|].
  cbn [turn_id] in Hid. lia.
Qed.

Lemma filter_cut_off n s vad' seq' l id :
  cut_off n (mkSession vad' seq' l (buffered s) (emitted s)) ->
  cut_off n (mkSession vad' seq' l
               (List.filter (fun c => negb (chunk_turn c =? id)%nat) (buffered s))
               (emitted s)).
Proof.
  intros (Hn & Ht & Hb). unfold cut_off in *. cbn [turns buffered] in *.
  split; [exact Hn|]. split; [exact Ht|].
  intros c Hin. apply filter_In in Hin as [Hin _]. apply Hb, Hin.
Qed.

Lemma on_speech_start_cut_off n seq s :
  cut_off n s -> cut_off n (on_speech_start seq s).
Proof.
  intros H. unfold on_speech_start. destruct s as [v q l b e]. cbn [turns buffered emitted vad next_seq].
  destruct (List.find active l) as [t|].
  - destruct (turn_state t); try exact H;
      apply (append_turn_cut_off n (mkSession v q l b e));
      try apply update_turn_length;
      apply (filter_cut_off n (mkSession v q l b e));
      apply (update_turn_cut_off n _ _ (mkSession v q l b e));
      try exact H; intros st _; apply terminal_interrupt.
  - apply (append_turn_cut_off n (mkSession v q l b e)); [reflexivity | exact H].
Qed.

Lemma find_turn_Some id l t :
  List.find (fun t => (turn_id t =? id)%nat) l = Some t -> In t l /\ turn_id t = id.
Proof. intros H. apply find_some in H as [Hin E]. apply Nat.eqb_eq in E. auto. Qed.

Lemma accepts_audio_cut_off n s c :
  cut_off n s -> accepts_audio s c = true -> chunk_turn c <> n.
Proof.
  intros (_ & Ht & _) Ha Hc. unfold accepts_audio in Ha.
  destruct (List.find _ (turns s)) as [t|] eqn:Ef; [|discriminate].
  apply find_turn_Some in Ef as [Hin Hid].
  assert (Hterm : terminal (turn_state t) = true) by (apply Ht; [exact Hin | congruence]).
  destruct (turn_state t); discriminate.
Qed.

(** One input on a session where turn [n] is cut off: the turn stays cut
    off, and what is sent is not of turn [n]. *)
Lemma step_cut_off n s i :
  cut_off n s ->
  cut_off n (step s i) /\
  exists extra, emitted (step s i) = emitted s ++ extra /\
                Forall (fun c => chunk_turn c <> n) extra.
Proof.
  intros H.
  assert (Hsame : forall s', emitted s' = emitted s -> cut_off n s' ->
            cut_off n s' /\
            exists extra, emitted s' = emitted s ++ extra /\
                          Forall (fun c => chunk_turn c <> n) extra).
  { intros s' He Hc. split; [exact Hc|]. exists []. rewrite app_nil_r. auto. }
  destruct i as [is_speech|id|id|c|]; cbn [step].
  - destruct (vad_step (vad s) (next_seq s) is_speech) as [vad' [[seq|seq]|]].
    + apply Hsame.
      * unfold on_speech_start. cbn [turns emitted buffered vad next_seq].
        destruct (List.find active (turns s)) as [t|]; [destruct (turn_state t)|];
          reflexivity.
      * apply on_speech_start_cut_off. exact H.
    + apply Hsame.
      * unfold on_speech_end. cbn [turns emitted].
        destruct (List.find active (turns s)); reflexivity.
      * unfold on_speech_end. cbn [turns buffered emitted vad next_seq].
        destruct (List.find active (turns s)) as [t|]; [|exact H].
        apply (update_turn_cut_off n _ _ s), H. apply terminal_finalize.
    + apply Hsame; [reflexivity | exact H].
  - apply Hsame; [reflexivity|].
    apply (update_turn_cut_off n _ _ s), H. apply terminal_next_state.
  - apply Hsame; [reflexivity|].
    apply (update_turn_cut_off n _ _ s), H. intros st _; apply terminal_interrupt.
  - destruct (accepts_audio s c) eqn:Ea; [|apply Hsame; [reflexivity | exact H]].
    apply Hsame; [reflexivity|].
    pose proof (accepts_audio_cut_off _ _ _ H Ea) as Hc.
    destruct H as (Hn & Ht & Hb). unfold cut_off. cbn [turns buffered].
    split; [exact Hn|]. split; [exact Ht|].
    intros c' Hin. apply in_app_or in Hin as [Hin|[<-|[]]]; auto.
  - destruct H as (Hn & Ht & Hb). split.
    + unfold cut_off. cbn [turns buffered]. split; [exact Hn|].
      split; [exact Ht | intros c []].
    + exists (buffered s). split; [reflexivity|].
      apply List.Forall_forall. exact Hb.
Qed.

Lemma run_cut_off n inputs s :
  cut_off n s ->
  exists extra, emitted (run inputs s) = emitted s ++ extra /\
                Forall (fun c => chunk_turn c <> n) extra.
Proof.
  revert s. induction inputs as [|i inputs IH]; intros s H.
  - exists []. rewrite app_nil_r. auto.
  - cbn [run foldl]. fold (run inputs (step s i)).
    destruct (step_cut_off n s i H) as (H' & extra1 & He1 & Hf1).
    destruct (IH _ H') as (extra2 & He2 & Hf2).
    exists (extra1 ++ extra2). rewrite He2, He1, <- app_assoc.
    split; [reflexivity | apply Forall_app; auto].
Qed.

(** The interruption of section 4.6 cuts the interrupted turn off. *)
Lemma interruption_cuts_off seq s t :
  ids_bounded s -> List.find active (turns s) = Some t ->
  turn_state t = replying \/ turn_state t = speaking ->
  cut_off (turn_id t) (on_speech_start seq s)
  /\ emitted (on_speech_start seq s) = emitted s.
Proof.
  intros Hb Hf Hst. pose proof (find_active_Some _ _ Hf) as [Hin _].
  assert (Hcut : cut_off (turn_id t)
            (mkSession (vad s) (next_seq s)
               (update_turn (turn_id t) interrupt (turns s)
                ++ [mkTurn (length (turns s)) listening seq])
               (List.filter (fun c => negb (chunk_turn c =? turn_id t)%nat) (buffered s))
               (emitted s))).
  { unfold cut_off. cbn [turns buffered].
    rewrite length_app, update_turn_length. cbn [length].
    specialize (Hb _ Hin). split; [lia|]. split.
    - intros t' Hin' Hid. apply in_app_or in Hin' as [Hin'|[<-|[]]].
      + apply in_update_turn in Hin' as (t0 & _ & Hid0 & [[Hne _]|[_ ->]]).
        * congruence.
        * apply terminal_interrupt.
      + cbn [turn_id] in Hid. lia.
    - intros c Hc. apply filter_In in Hc as [_ Hc].
      apply negb_true_iff, Nat.eqb_neq in Hc. exact Hc. }
  unfold on_speech_start. rewrite Hf.
  destruct Hst as [-> | ->]; split; first [exact Hcut | reflexivity].
Qed.

Lemma run_app inputs1 inputs2 s :
  run (inputs1 ++ inputs2) s = run inputs2 (run inputs1 s).
Proof. apply foldl_app. Qed.

(** C7.  When a frame makes the detector confirm [SpeechStart] while the
    active turn is replying or speaking, everything sent across the output
    boundary from then on, whatever the session goes on to process and
    whatever was buffered, is of another turn. *)
Theorem interruption_cutoff pre post is_speech seq t :
  let s := run pre initial in
  List.find active (turns s) = Some t ->
  turn_state t = replying \/ turn_state t = speaking ->
  (vad_step (vad s) (next_seq s) is_speech).2 = Some (SpeechStart seq) ->
  exists extra,
    emitted (run (pre ++ Frame is_speech :: post) initial) = emitted s ++ extra /\
    Forall (fun c => chunk_turn c <> turn_id t) extra.
Proof.
  intros s Hf Hst Hvad.
  rewrite run_app. fold s. cbn [run foldl]. fold (run post (step s (Frame is_speech))).
  cbn [step]. destruct (vad_step (vad s) (next_seq s) is_speech) as [vad' ev].
  cbn [snd] in Hvad. subst ev.
  set (s' := mkSession vad' (S (next_seq s)) (turns s) (buffered s) (emitted s)).
  assert (Hb : ids_bounded s').
  { assert (H0 : ids_bounded s) by (apply run_ids_bounded; intros ? []).
    exact H0. }
  destruct (interruption_cuts_off seq s' t Hb Hf Hst) as [Hcut He].
  destruct (run_cut_off _ post _ Hcut) as (extra & Hrun & Hall).
  exists extra. rewrite Hrun, He. split; [reflexivity | exact Hall].
Qed.

End Thresholds.

(** *** Two runs, with both thresholds at two frames *)

(** One turn that runs to completion (scenario A). *)
Definition single_turn : list Input :=
  [Frame true; Frame true; Frame false; Frame false;
   Progress 0; Progress 0; Audio (mkChunk 0 0); Flush; Progress 0].

Example single_turn_completes :
  turns (run 2 2 single_turn initial) = [mkTurn 0 completed 1]
  /\ emitted (run 2 2 single_turn initial) = [mkChunk 0 0].
Proof. split; reflexivity. Qed.

(** Turn 0 speaks, with one chunk sent and one buffered, when the user
    speaks again (scenario B). *)
Definition before_barge_in : list Input :=
  [Frame true; Frame true; Frame false; Frame false;
   Progress 0; Progress 0; Audio (mkChunk 0 0); Flush; Audio (mkChunk 0 1);
   Frame true].

(** After the interruption: a late chunk of turn 0, and turn 1 to its end. *)
Definition after_barge_in : list Input :=
  [Flush; Audio (mkChunk 0 2); Flush; Frame false; Frame false;
   Progress 1; Progress 1; Audio (mkChunk 1 0); Progress 1; Flush].

Example barge_in :
  let s := run 2 2 (before_barge_in ++ Frame true :: after_barge_in) initial in
  turns s = [mkTurn 0 interrupted 1; mkTurn 1 completed 5]
  /\ emitted s = [mkChunk 0 0; mkChunk 1 0].
Proof. split; reflexivity. Qed.

Lemma interruption_cutoff_witness :
  let s := run 2 2 before_barge_in initial in
  List.find active (turns s) = Some (mkTurn 0 speaking 1) /\
  (vad_step 2 2 (vad s) (next_seq s) true).2 = Some (SpeechStart 5) /\
  exists extra,
    emitted (run 2 2 (before_barge_in ++ Frame true :: after_barge_in) initial)
    = emitted s ++ extra /\
    Forall (fun c => chunk_turn c <> 0) extra.
Proof.
  split; [reflexivity|]. split; [reflexivity|].
  apply (interruption_cutoff 2 2 before_barge_in after_barge_in true 5
           (mkTurn 0 speaking 1)).
  - reflexivity.
  - right; reflexivity.
  - reflexivity.
Defined.

End Session.
